(** * nelpy.utils: event-boundary detection

    A shallow embedding of three functions of [nelpy/utils.py]:
    [get_contiguous_segments], [find_threshold_crossing_events] and
    [get_events_boundaries], with the NumPy and itertools primitives they
    call.

    Conventions of the embedding.
    - Sample values, thresholds, the sample step [ds] and durations are
      exact rationals ([Q]); floating-point rounding is outside the model.
      The one NaN the code produces by itself, the median of no difference
      at all, is [None].
    - Array indices are [Z], because the source subtracts one from an
      insertion point and indexes with the result, which may be [-1].
    - A Python exception is a value of [exn]; a call either returns
      ([Ok]) or raises ([Raise]).
    - [warnings.warn] changes neither control flow nor the returned value
      and is left out. *)

From Stdlib Require Import List ZArith QArith Qminmax Qabs Qround String Bool
  Lia Sorted Permutation.
Import ListNotations.

Local Open Scope Z_scope.

(* ================================================================= *)
(** ** Exceptions and results *)

Inductive exn : Type :=
| TypeError
| NotImplementedError
| AssertionError
| IndexError
| ValueError.

Inductive result (A : Type) : Type :=
| Ok (a : A)
| Raise (e : exn).

Arguments Ok {A} a.
Arguments Raise {A} e.

Definition bind {A B : Type} (m : result A) (k : A -> result B) : result B :=
  match m with
  | Ok a => k a
  | Raise e => Raise e
  end.

Notation "'do' x <- m ; k" := (bind m (fun x => k))
  (at level 10, x pattern, m at level 100, k at level 200).

(** [mapM f l]: evaluate [f] on every element from left to right; the first
    exception aborts. *)
Fixpoint mapM {A B : Type} (f : A -> result B) (l : list A) : result (list B) :=
  match l with
  | [] => Ok []
  | a :: l' => do b <- f a; do bs <- mapM f l'; Ok (b :: bs)
  end.

(* ================================================================= *)
(** ** Python and NumPy primitives *)

Module Py.

(** [len(l)] as an integer. *)
Definition len {A : Type} (l : list A) : Z := Z.of_nat (List.length l).

(** [l[i]] for an integer [i]: indices [0 .. n-1] count from the front,
    [-n .. -1] from the back, anything else raises [IndexError]. *)
Definition index {A : Type} (l : list A) (i : Z) : result A :=
  let n := len l in
  let j := if i <? 0 then i + n else i in
  if (0 <=? j) && (j <? n) then
    match nth_error l (Z.to_nat j) with
    | Some a => Ok a
    | None => Raise IndexError
    end
  else Raise IndexError.

(** [l[idx]] for an integer index array [idx] (fancy indexing). *)
Definition take {A : Type} (l : list A) (idx : list Z) : result (list A) :=
  mapM (index l) idx.

(** [l[a:b]] for [0 <= a]; the indices the source slices with come from
    [enumerate] and are never negative. *)
Definition slice {A : Type} (l : list A) (a b : Z) : list A :=
  firstn (Z.to_nat (b - a)) (skipn (Z.to_nat a) l).

(** [l[mask]] for a boolean mask of the length of [l]. The source writes
    [l[[mask]]]; the NumPy it was written for reads a list holding one array
    as the tuple [(mask,)], that is, as [l[mask]]. *)
Fixpoint compress {A : Type} (mask : list bool) (l : list A) : list A :=
  match mask, l with
  | m :: mask', a :: l' => if m then a :: compress mask' l' else compress mask' l'
  | _, _ => []
  end.

(** [enumerate(l)], counting from [i]. *)
Fixpoint enumerate_from {A : Type} (i : Z) (l : list A) : list (Z * A) :=
  match l with
  | [] => []
  | a :: l' => (i, a) :: enumerate_from (i + 1) l'
  end.

Definition enumerate {A : Type} (l : list A) : list (Z * A) := enumerate_from 0 l.

(** [itertools.groupby(l, key)]: the maximal blocks of consecutive elements
    with equal keys, each with its key, in order. *)
Fixpoint groupby {A K : Type} (eqb : K -> K -> bool) (key : A -> K)
    (l : list A) : list (K * list A) :=
  match l with
  | [] => []
  | a :: l' =>
      match groupby eqb key l' with
      | (k, g) :: rest =>
          if eqb (key a) k then (k, a :: g) :: rest
          else (key a, [a]) :: (k, g) :: rest
      | [] => [(key a, [a])]
      end
  end.

(** [np.diff]. *)
Fixpoint diff (l : list Q) : list Q :=
  match l with
  | a :: (b :: _) as l' => (b - a)%Q :: diff l'
  | _ => []
  end.

(** [x > y] and [x >= y] on rationals, as booleans. *)
Definition Qgtb (x y : Q) : bool := negb (Qle_bool x y).
Definition Qltb (x y : Q) : bool := negb (Qle_bool y x).
Definition Qgeb (x y : Q) : bool := Qle_bool y x.

(** [a.max()]: [None] stands for the [ValueError] NumPy raises on an empty
    array. *)
Definition amax (l : list Q) : option Q :=
  match l with
  | [] => None
  | a :: l' => Some (fold_left Qmax l' a)
  end.

(** Insertion into a list sorted by [Qle]; the sort behind [np.median]. *)
Fixpoint insertQ (a : Q) (l : list Q) : list Q :=
  match l with
  | [] => [a]
  | b :: l' => if Qle_bool a b then a :: l else b :: insertQ a l'
  end.

Definition sortQ (l : list Q) : list Q := fold_right insertQ [] l.

(** [np.median(l)]: the middle element of the sorted values, or the mean of
    the two middle ones; [None] stands for the NaN of an empty array. *)
Definition median (l : list Q) : option Q :=
  let s := sortQ l in
  let n := List.length s in
  match n with
  | O => None
  | _ =>
      if Nat.even n
      then Some ((nth (n / 2 - 1) s 0%Q + nth (n / 2) s 0%Q) / 2)%Q
      else Some (nth (n / 2) s 0%Q)
  end.

(** [np.argwhere(mask)] on a one-dimensional mask, flattened: the positions
    that hold [true]. *)
Definition argwhere (mask : list bool) : list Z :=
  map fst (filter snd (enumerate mask)).

(** [np.searchsorted(a, v)] with the default [side='left'] on an ascending
    [a]: the first position whose element is not below [v], which is the
    number of leading elements strictly below [v]. *)
Fixpoint searchsorted (a : list Z) (v : Z) : Z :=
  match a with
  | [] => 0
  | b :: a' => if b <? v then 1 + searchsorted a' v else 0
  end.

(** Stable insertion of an (index, value) pair by value; the stable sort
    ([ar.argsort(kind='mergesort')]) behind
    [np.unique(..., return_index=True)]. *)
Fixpoint insert_by_value (p : Z * Z) (l : list (Z * Z)) : list (Z * Z) :=
  match l with
  | [] => [p]
  | q :: l' => if snd p <=? snd q then p :: l else q :: insert_by_value p l'
  end.

Definition stable_sort_by_value (l : list (Z * Z)) : list (Z * Z) :=
  fold_right insert_by_value [] l.

(** The mask of [np.unique] over the sorted values [aux]: the first element,
    and every element that differs from the one before it. *)
Fixpoint unique_mask_from (prev : Z) (aux : list Z) : list bool :=
  match aux with
  | [] => []
  | v :: aux' => negb (v =? prev) :: unique_mask_from v aux'
  end.

Definition unique_mask (aux : list Z) : list bool :=
  match aux with
  | [] => []
  | v :: aux' => true :: unique_mask_from v aux'
  end.

(** The second component of [np.unique(ar, return_index=True)]: for every
    distinct value, in ascending order of the values, the position of its
    first occurrence in [ar]. *)
Definition unique_index (ar : list Z) : list Z :=
  let sorted := stable_sort_by_value (enumerate ar) in
  compress (unique_mask (map snd sorted)) (map fst sorted).

End Py.

(* ================================================================= *)
(** ** find_threshold_crossing_events *)

(** The arrays [find_threshold_crossing_events] is called with: a
    zero-dimensional array (one number) or a one-dimensional one. *)
Inductive array (A : Type) : Type :=
| Arr0 (v : A)
| Arr1 (l : list A).

Arguments Arr0 {A} v.
Arguments Arr1 {A} l.

(** [np.where(cond(x), 1, 0)], elementwise; the result has the shape of
    [x]. *)
Definition np_where (cond : Q -> bool) (x : array Q) : array Z :=
  match x with
  | Arr0 v => Arr0 (if cond v then 1 else 0)
  | Arr1 l => Arr1 (map (fun v => if cond v then 1 else 0) l)
  end.

(** [enumerate(a)]: iterating over a zero-dimensional array raises
    [TypeError]. *)
Definition enumerate_array {A : Type} (a : array A) : result (list (Z * A)) :=
  match a with
  | Arr0 _ => Raise TypeError
  | Arr1 l => Ok (Py.enumerate l)
  end.

(** [x[a:b]] on a one-dimensional array. *)
Definition slice_array {A : Type} (x : array A) (a b : Z) : list A :=
  match x with
  | Arr0 _ => []
  | Arr1 l => Py.slice l a b
  end.

(** A run: the inclusive pair [[start, stop]]. *)
Abbreviation run := (Z * Z)%type (only parsing).

(** Truth value of an integer ([if k:]). *)
Definition truthy (k : Z) : bool := negb (k =? 0).

(** One iteration of the loop over the groups: a group with a true key
    appends its first and last index to [eventlist] and the maximum of [x]
    over that span to [eventmax]; the [except] branch (an empty slice) only
    prints. *)
Definition crossing_step (x : array Q) (st : list run * list Q)
    (kv : Z * list (Z * Z)) : list run * list Q :=
  let '(eventlist, eventmax) := st in
  let '(k, v) := kv in
  if truthy k then
    let first := fst (hd (0, 0) v) in
    let last := fst (List.last v (0, 0)) in
    (eventlist ++ [(first, last)],
     match Py.amax (slice_array x first (last + 1)) with
     | Some m => eventmax ++ [m]
     | None => eventmax
     end)
  else st.

(** [find_threshold_crossing_events(x, threshold, mode=mode)]: the maximal
    runs of [x] strictly beyond [threshold], as [eventlist], and the maximum
    of [x] over each, as [eventmax]. *)
Definition find_threshold_crossing_events (x : array Q) (threshold : Q)
    (mode : string) : result (list run * list Q) :=
  do cross_threshold <-
    (if String.eqb mode "below" then
       Ok (np_where (fun v => Py.Qltb v threshold) x)
     else if String.eqb mode "above" then
       Ok (np_where (fun v => Py.Qgtb v threshold) x)
     else Raise NotImplementedError);
  do items <- enumerate_array cross_threshold;
  Ok (fold_left (crossing_step x) (Py.groupby Z.eqb snd items) ([], [])).

(* ================================================================= *)
(** ** get_events_boundaries *)

(** An n-dimensional array as the source receives it: its shape and its
    elements in row-major order. *)
Record ndarray : Type := mk_ndarray {
  shape : list nat;
  flat : list Q
}.

(** [x.squeeze()]: the axes of length one are removed. *)
Definition squeeze (x : ndarray) : ndarray :=
  mk_ndarray (filter (fun d => negb (Nat.eqb d 1)) (shape x)) (flat x).

(** [x.ndim]. *)
Definition ndim (x : ndarray) : nat := List.length (shape x).

(** An array of at most one dimension, as [find_threshold_crossing_events]
    iterates over it. *)
Definition as_array (x : ndarray) : array Q :=
  match shape x with
  | [] => Arr0 (hd 0%Q (flat x))
  | _ => Arr1 (flat x)
  end.

(** [(stop - start + 1) * ds] for one row. *)
Definition duration (ds : Q) (r : run) : Q :=
  (inject_Z (snd r - fst r + 1) * ds)%Q.

(** [(r[:,1] - r[:,0] + 1) * ds]; multiplying by [ds=None] raises
    [TypeError]. *)
Definition durations (r : list run) (ds : option Q) : result (list Q) :=
  match ds with
  | None => Raise TypeError
  | Some d => Ok (map (duration d) r)
  end.

(** [assert c], with assertions enabled. *)
Definition assert (c : bool) : result unit :=
  if c then Ok tt else Raise AssertionError.

(** [r[:,0]]: an empty run array is one-dimensional, and indexing it with
    two indices raises [IndexError]. *)
Definition column0 (r : list run) : result (list Z) :=
  match r with
  | [] => Raise IndexError
  | _ => Ok (map fst r)
  end.

(** [get_events_boundaries(x, PrimaryThreshold=..., ...)], returning
    [bounds, maxes, events]. Both thresholds are given: the defaults the
    source derives from the mean and the standard deviation of [x] need a
    square root and are not part of the embedding. An optional argument
    left at [None] is [None] here. *)
Definition get_events_boundaries (x : ndarray)
    (PrimaryThreshold SecondaryThreshold : Q)
    (minThresholdLength minLength maxLength ds : option Q)
    (mode : string) : result (list run * list Q * list run) :=
  let x := squeeze x in
  if (1 <? ndim x)%nat then Raise TypeError else
  let x := as_array x in
  do (events, _) <- find_threshold_crossing_events x PrimaryThreshold mode;
  (* apply minThresholdLength criterion *)
  do events <-
    match minThresholdLength with
    | Some minThresholdLength =>
        if 0 <? Py.len events then
          do d <- durations events ds;
          Ok (Py.compress (map (fun t => Py.Qgeb t minThresholdLength) d) events)
        else Ok events
    | None => Ok events
    end;
  if Py.len events =? 0 then Ok ([], [], []) else
  do _ <-
    (if String.eqb mode "above" then
       assert (Qle_bool SecondaryThreshold PrimaryThreshold)
     else if String.eqb mode "below" then
       assert (Py.Qgeb SecondaryThreshold PrimaryThreshold)
     else Raise NotImplementedError);
  do (bounds, broader_maxes) <-
    find_threshold_crossing_events x SecondaryThreshold mode;
  (* find corresponding big windows for potential events *)
  do starts <- column0 bounds;
  let outer_boundary_indices :=
    map (fun e => Py.searchsorted starts (fst e)) events in
  let outer_boundary_indices := map (fun i => i - 1) outer_boundary_indices in
  do bounds <- Py.take bounds outer_boundary_indices;
  do maxes <- Py.take broader_maxes outer_boundary_indices;
  do (bounds, maxes, events) <-
    match minLength with
    | Some minLength =>
        if 0 <? Py.len events then
          do d <- durations bounds ds;
          let keep := map (fun t => Py.Qgeb t minLength) d in
          Ok (Py.compress keep bounds, Py.compress keep maxes,
              Py.compress keep events)
        else Ok (bounds, maxes, events)
    | None => Ok (bounds, maxes, events)
    end;
  do (bounds, maxes, events) <-
    match maxLength with
    | Some maxLength =>
        if 0 <? Py.len events then
          do d <- durations bounds ds;
          let keep := map (fun t => Qle_bool t maxLength) d in
          Ok (Py.compress keep bounds, Py.compress keep maxes,
              Py.compress keep events)
        else Ok (bounds, maxes, events)
    | None => Ok (bounds, maxes, events)
    end;
  if Py.len events =? 0 then Ok ([], [], []) else
  (* get rid of repeats *)
  let unique_idx := Py.unique_index (map fst bounds) in
  do bounds <- Py.take bounds unique_idx;
  do maxes <- Py.take maxes unique_idx;
  do events <- Py.take events unique_idx;
  Ok (bounds, maxes, events).

(* ================================================================= *)
(** ** get_contiguous_segments *)

(** [np.diff(data) >= 2*step]; a NaN step ([None]) compares false. *)
Definition gap_mask (data : list Q) (step : option Q) : list bool :=
  map (fun d => match step with
                | Some s => Py.Qgeb d (2 * s)%Q
                | None => false
                end) (Py.diff data).

(** The [in_memory] branch. [np.insert(breaks+1, 0, 0)] and
    [np.append(breaks, len(data)-1)] flatten their first argument. *)
Definition contiguous_in_memory (data : list Q) (step : option Q)
    : result (list (Q * Q)) :=
  let step :=
    match step with
    | None => Py.median (Py.diff data)
    | Some s => Some s
    end in
  let breaks := Py.argwhere (gap_mask data step) in
  let starts := 0 :: map (fun b => b + 1) breaks in
  let stops := breaks ++ [Py.len data - 1] in
  do first <- Py.take data starts;
  do last <- Py.take data stops;
  Ok (combine first last).

(** One iteration of the [groupby] loop of the other branch: the first and
    the last value of the group. *)
Definition segment_of_group (g : list (Z * Q)) : Q * Q :=
  let start := snd (hd (0, 0%Q) g) in
  (start, snd (List.last g (0, start))).

(** The branch that works on a generator: groups by index minus value. *)
Definition contiguous_out_of_core (data : list Q) (sort : bool)
    : result (list (Q * Q)) :=
  let data := if sort then Py.sortQ data else data in
  Ok (map (fun kg => segment_of_group (snd kg))
        (Py.groupby Qeq_bool (fun ix => (inject_Z (fst ix) - snd ix)%Q)
           (Py.enumerate data))).

(** [get_contiguous_segments(data, step, sort, in_memory)]: the rows
    [[start, stop]] of the result. *)
Definition get_contiguous_segments (data : list Q) (step : option Q)
    (sort in_memory : bool) : result (list (Q * Q)) :=
  if in_memory then contiguous_in_memory data step
  else contiguous_out_of_core data sort.

(* ================================================================= *)
(** ** is_odd, pairwise, argsort, is_sorted, linear_merge *)

(** [is_odd(n)]: [bool(n & 1)], on Python's unbounded integers. *)
Definition is_odd (n : Z) : bool := negb (Z.land n 1 =? 0).

(** [pairwise(iterable)]: [zip(a, b)] of the iterable and of itself advanced
    by one item, as a list. *)
Definition pairwise {A : Type} (iterable : list A) : list (A * A) :=
  combine iterable (tl iterable).

(** [argsort(seq)]: [sorted(range(len(seq)), key=seq.__getitem__)]. Python's
    [sorted] is stable, so this is the stable sort of the positions by the
    value they hold. *)
Definition argsort (seq : list Z) : list Z :=
  map fst (Py.stable_sort_by_value (Py.enumerate seq)).

(** [is_sorted(iterable, key)]: [all(key(a, b) for a, b in
    pairwise(iterable))]. *)
Definition is_sorted {A : Type} (key : A -> A -> bool) (iterable : list A)
    : bool :=
  forallb (fun ab => key (fst ab) (snd ab)) (pairwise iterable).

(** The default [key] of [is_sorted]: [lambda a, b: a <= b]. *)
Definition default_key (a b : Z) : bool := a <=? b.

(** The main loop of [linear_merge], from the state in which [value1] and
    [value2] have been drawn and [rest1] and [rest2] are what the two
    iterators still hold: the values it yields, in order. When one iterator
    is exhausted, the value last drawn from the other and then the rest of
    the other are yielded. *)
Fixpoint merge_loop (value1 : Z) (rest1 : list Z) (value2 : Z)
    (rest2 : list Z) {struct rest1} : list Z :=
  let fix from_list2 (value2 : Z) (rest2 : list Z) {struct rest2} : list Z :=
    if value1 <=? value2 then
      value1 ::
      match rest1 with
      | [] => value2 :: rest2
      | next1 :: rest1' => merge_loop next1 rest1' value2 rest2
      end
    else
      value2 ::
      match rest2 with
      | [] => value1 :: rest1
      | next2 :: rest2' => from_list2 next2 rest2'
      end
  in from_list2 value2 rest2.

(** [linear_merge(list1, list2)] on two lists: the values the generator
    yields, in order. An empty list makes it yield the other list whole.
    How the generator ends once an iterator is exhausted (the
    [StopIteration] of [next] inside the generator body) is not part of the
    embedding. *)
Definition linear_merge (list1 list2 : list Z) : list Z :=
  match list1 with
  | [] => list2
  | value1 :: rest1 =>
      match list2 with
      | [] => list1
      | value2 :: rest2 => merge_loop value1 rest1 value2 rest2
      end
  end.

(* ================================================================= *)
(** ** swap_cols, swap_rows *)

(** [l[i] = a] for an integer [i], with the index rule of [Py.index]. *)
Definition setitem {A : Type} (l : list A) (i : Z) (a : A) : result (list A) :=
  let n := Py.len l in
  let j := if i <? 0 then i + n else i in
  if (0 <=? j) && (j <? n) then
    Ok (firstn (Z.to_nat j) l ++ a :: skipn (S (Z.to_nat j)) l)
  else Raise IndexError.

(** [arr[frm], arr[to] = arr[to], arr[frm]]: the right-hand side is read
    first, then the two items are stored from left to right. *)
Definition swap_items {A : Type} (arr : list A) (frm to : Z) : result (list A) :=
  do at_to <- Py.index arr to;
  do at_frm <- Py.index arr frm;
  do arr <- setitem arr frm at_to;
  setitem arr to at_frm.

(** The arrays [swap_cols] and [swap_rows] are written for: one-dimensional,
    or two-dimensional with [ncols] columns, held as the list of its rows. *)
Inductive grid (A : Type) : Type :=
| Vec (items : list A)
| Mat (ncols : nat) (rows : list (list A)).

Arguments Vec {A} items.
Arguments Mat {A} ncols rows.

(** An index into an axis of length [n] is checked before a fancy-indexed
    read or write. *)
Definition check_index (n : nat) (i : Z) : result unit :=
  if (- Z.of_nat n <=? i) && (i <? Z.of_nat n) then Ok tt else Raise IndexError.

(** [swap_cols(arr, frm, to)]; the array is changed in place, so the new
    array is returned. For [arr.ndim > 1] the columns [frm] and [to] of every
    row are exchanged ([arr[:,[frm, to]] = arr[:,[to, frm]]]). *)
Definition swap_cols {A : Type} (arr : grid A) (frm to : Z) : result (grid A) :=
  match arr with
  | Mat ncols rows =>
      do _ <- check_index ncols to;
      do _ <- check_index ncols frm;
      do rows <- mapM (fun row => swap_items row frm to) rows;
      Ok (Mat ncols rows)
  | Vec items =>
      do items <- swap_items items frm to;
      Ok (Vec items)
  end.

(** [swap_rows(arr, frm, to)]: for [arr.ndim > 1] the rows [frm] and [to]
    are exchanged ([arr[[frm, to],:] = arr[[to, frm],:]]). *)
Definition swap_rows {A : Type} (arr : grid A) (frm to : Z) : result (grid A) :=
  match arr with
  | Mat ncols rows =>
      do rows <- swap_items rows frm to;
      Ok (Mat ncols rows)
  | Vec items =>
      do items <- swap_items items frm to;
      Ok (Vec items)
  end.

(* ================================================================= *)
(** ** find_nearest_idx, find_nearest_indices, get_sort_idx, cartesian *)

(** The scan of [a.argmin()]: [best] is the least value so far and [best_i]
    the first position that holds it; [i] is the position of the head of
    [l]. *)
Fixpoint argmin_from (best_i : Z) (best : Q) (i : Z) (l : list Q) : Z :=
  match l with
  | [] => best_i
  | a :: l' =>
      if Py.Qltb a best then argmin_from i a (i + 1) l'
      else argmin_from best_i best (i + 1) l'
  end.

(** [a.argmin()]: the first position of the minimum; an empty array raises
    [ValueError]. *)
Definition argmin (a : list Q) : result Z :=
  match a with
  | [] => Raise ValueError
  | a0 :: a' => Ok (argmin_from 0 a0 1 a')
  end.

(** [find_nearest_idx(array, val)]: [(np.abs(array-val)).argmin()]. *)
Definition find_nearest_idx (array : list Q) (val : Q) : result Z :=
  argmin (map (fun a => Qabs (a - val)) array).

(** [find_nearest_indices(array, vals)]. *)
Definition find_nearest_indices (array vals : list Q) : result (list Z) :=
  mapM (find_nearest_idx array) vals.

(** [np.where(neuron_tc == np.max(neuron_tc))[0][0]]: the first position
    that holds the maximum. [np.max] of an empty array raises
    [ValueError]. *)
Definition first_max_location (neuron_tc : list Q) : result Z :=
  match Py.amax neuron_tc with
  | None => Raise ValueError
  | Some m =>
      Py.index (Py.argwhere (map (fun v => Qeq_bool v m) neuron_tc)) 0
  end.

(** [get_sort_idx(tuning_curves)]: the neurons in the order of the location
    of their maximum; [sorted] is stable. *)
Definition get_sort_idx (tuning_curves : list (list Q)) : result (list Z) :=
  do locations <- mapM first_max_location tuning_curves;
  let tc_max_loc := Py.enumerate locations in
  let sorted_by_tc := Py.stable_sort_by_value tc_max_loc in
  Ok (map fst sorted_by_tc).

(** [np.tile(a, reps)]. *)
Fixpoint tile {A : Type} (a : list A) (reps : nat) : list A :=
  match reps with
  | O => []
  | S reps' => a ++ tile a reps'
  end.

(** [np.repeat(a, repeats)]: every element [repeats] times in a row. *)
Definition repeat_each {A : Type} (a : list A) (repeats : nat) : list A :=
  flat_map (fun v => repeat v repeats) a.

(** [cartesian(xcenters, ycenters)]: the rows of
    [np.transpose([np.tile(xcenters, len(ycenters)),
                   np.repeat(ycenters, len(xcenters))])]. *)
Definition cartesian {A : Type} (xcenters ycenters : list A) : list (A * A) :=
  combine (tile xcenters (List.length ycenters))
          (repeat_each ycenters (List.length xcenters)).

(* ================================================================= *)
(** ** PrettyDuration.to_dhms *)

(** [namedtuple('Time', 'pos dd hh mm ss ms')]. *)
Record Time : Type := mk_Time {
  pos : bool;
  dd : Z;
  hh : Z;
  mm : Z;
  ss : Z;
  ms : Z
}.

(** [round(x)] to an integer: to the nearest, and to the even one of two
    nearest. *)
Definition py_round (x : Q) : Z :=
  let f := Qfloor x in
  let r := (x - inject_Z f)%Q in
  if Py.Qltb r (1 # 2) then f
  else if Py.Qltb (1 # 2) r then f + 1
  else if Z.even f then f else f + 1.

(** [divmod(a, b)]. *)
Definition divmod (a b : Z) : Z * Z := (a / b, a mod b).

(** [PrettyDuration.to_dhms(seconds)], on an exact rational. The day,
    hour, minute and second fields come from [floor] and integer [divmod]
    and are the same on a float; the millisecond field rounds the exact
    product here and the floating-point product there. *)
Definition to_dhms (seconds : Q) : Time :=
  let pos := Py.Qgeb seconds 0 in
  let seconds := if negb pos then (- seconds)%Q else seconds in
  let ms := (seconds - inject_Z (Qfloor seconds))%Q in (* seconds % 1 *)
  let ms := py_round (ms * 1000)%Q in
  let seconds := Qfloor seconds in
  let '(m, s) := divmod seconds 60 in
  let '(h, m) := divmod m 60 in
  let '(d, h) := divmod h 24 in
  mk_Time pos d h m s ms.

(* ================================================================= *)
(** ** get_run_epochs, get_inactive_epochs, get_mua_events *)

(** Modelled from the spec: the time-series container of [nelpy.core]
    ([AnalogSignalArray]), which is not in this file. The spec gives it a
    sample buffer [ydata], a time buffer aligned to it ([tdata]/[time]) and
    a sampling rate; [mean()] and [std()] are its methods, taken here as
    the values they return. *)
Record AnalogSignalArray : Type := mk_AnalogSignalArray {
  ydata : ndarray;
  tdata : list Q;
  time : list Q;
  fs : option Q;
  mean : Q;
  std : Q
}.

(** Modelled from the spec: the interval container of [nelpy.core]
    ([EpochArray]), which is not in this file: it accepts a sequence of
    (start, stop) pairs; it is held as the arguments it is built from. *)
Inductive EpochArray : Type :=
| mk_EpochArray (bounds : list (Q * Q)) (fs : Q).

(** [t[bounds]] for an array of index pairs: both columns are looked up. An
    empty [bounds] gives an empty array. *)
Definition take_pairs (t : list Q) (bounds : list run) : result (list (Q * Q)) :=
  mapM (fun se => do a <- Py.index t (fst se);
                  do b <- Py.index t (snd se);
                  Ok (a, b)) bounds.

(** [get_run_epochs(speed, v1, v2)]; the defaults are [v1=10] and [v2=8]. *)
Definition get_run_epochs (speed : AnalogSignalArray) (v1 v2 : Q)
    : result EpochArray :=
  do (RUN_bounds, _, _) <-
    get_events_boundaries (ydata speed) v1 v2 None None None None "above";
  (* convert bounds to time in seconds *)
  do RUN_bounds <- take_pairs (tdata speed) RUN_bounds;
  Ok (mk_EpochArray RUN_bounds 1).

(** [get_inactive_epochs(speed, v1, v2)]; the defaults are [v1=5] and
    [v2=7]. *)
Definition get_inactive_epochs (speed : AnalogSignalArray) (v1 v2 : Q)
    : result EpochArray :=
  do (INACTIVE_bounds, _, _) <-
    get_events_boundaries (ydata speed) v1 v2 None None None None "below";
  do INACTIVE_bounds <- take_pairs (tdata speed) INACTIVE_bounds;
  Ok (mk_EpochArray INACTIVE_bounds 1).

(** [x if x is not None else default]. *)
Definition or_default {A : Type} (x : option A) (default : A) : A :=
  match x with
  | Some v => v
  | None => default
  end.

(** [get_mua_events(mua, fs, minLength, maxLength, PrimaryThreshold,
    minThresholdLength, SecondaryThreshold)]; every optional argument left
    at [None] is [None] here. The sample step is [1/fs]; the embedding is
    for a sampling rate other than zero. *)
Definition get_mua_events (mua : AnalogSignalArray)
    (fs_arg minLength maxLength PrimaryThreshold minThresholdLength
       SecondaryThreshold : option Q) : result EpochArray :=
  let fs_arg :=
    match fs_arg with
    | None => fs mua
    | Some f => Some f
    end in
  match fs_arg with
  | None => Raise ValueError
  | Some fs_arg =>
      let PrimaryThreshold :=
        or_default PrimaryThreshold (mean mua + 3 * std mua)%Q in
      let SecondaryThreshold := or_default SecondaryThreshold (mean mua) in
      let minLength := or_default minLength (50 # 1000) in
      let maxLength := or_default maxLength (750 # 1000) in
      let minThresholdLength := or_default minThresholdLength 0%Q in
      (* determine MUA event bounds *)
      do (mua_bounds_idx, maxes, _) <-
        get_events_boundaries (ydata mua) PrimaryThreshold (mean mua)
          (Some minThresholdLength) (Some minLength) (Some maxLength)
          (Some (1 / fs_arg)%Q) "above";
      if Py.len mua_bounds_idx =? 0 then Raise ValueError else
      (* store MUA bounds in an EpochArray *)
      do bounds <- take_pairs (time mua) mua_bounds_idx;
      Ok (mk_EpochArray bounds 1)
  end.

(* ================================================================= *)
(** * Vocabulary of the properties *)

(** ** Groups and runs *)

(** The run of one group: the index of its first and of its last item. *)
Definition group_run (kv : Z * list (Z * Z)) : run :=
  (fst (hd (0, 0) (snd kv)), fst (List.last (snd kv) (0, 0))).

(** What one true group appends to [eventmax]. *)
Definition group_peak (x : array Q) (kv : Z * list (Z * Z)) : list Q :=
  match Py.amax (slice_array x (fst (group_run kv)) (snd (group_run kv) + 1)) with
  | Some m => [m]
  | None => []
  end.

(** The groups whose key is true. *)
Definition true_groups (G : list (Z * list (Z * Z))) : list (Z * list (Z * Z)) :=
  filter (fun kv => truthy (fst kv)) G.

(** [eventlist] and [eventmax] after the loop over the groups [G]. *)
Definition events_of (G : list (Z * list (Z * Z))) : list run :=
  map group_run (true_groups G).

Definition peaks_of (x : array Q) (G : list (Z * list (Z * Z))) : list Q :=
  flat_map (group_peak x) (true_groups G).

(** [blocks i c G]: [G] cuts [c], enumerated from [i], into maximal blocks
    of one repeated key each. *)
Inductive blocks : Z -> list Z -> list (Z * list (Z * Z)) -> Prop :=
| blocks_nil : forall i, blocks i [] []
| blocks_last : forall i k n,
    (0 < n)%nat ->
    blocks i (repeat k n) [(k, Py.enumerate_from i (repeat k n))]
| blocks_more : forall i k n k' g' G c,
    (0 < n)%nat -> k <> k' ->
    blocks (i + Z.of_nat n) c ((k', g') :: G) ->
    blocks i (repeat k n ++ c)
      ((k, Py.enumerate_from i (repeat k n)) :: (k', g') :: G).

(** [before r1 r2]: [r1] stops before [r2] starts. *)
Definition before (r1 r2 : run) : Prop := snd r1 < fst r2.

(** A 0/1 array, as [np.where(cond, 1, 0)] yields. *)
Definition binary (c : list Z) : Prop := Forall (fun k => k = 0 \/ k = 1) c.

(** [x[j]] for an in-range, non-negative position. *)
Definition sample_at (x : list Q) (j : Z) : option Q :=
  if j <? 0 then None else nth_error x (Z.to_nat j).

(** [np.where(cond(x), 1, 0)] on a one-dimensional [x], and its groups. *)
Definition indicator (cond : Q -> bool) (x : list Q) : list Z :=
  map (fun v => if cond v then 1 else 0) x.

Definition groups_of (cond : Q -> bool) (x : list Q) : list (Z * list (Z * Z)) :=
  Py.groupby Z.eqb snd (Py.enumerate (indicator cond x)).

(** [exact_run cond x (s, e)]: the span is in range, [cond] holds at every
    position of it and fails just before and just after it. *)
Definition exact_run (cond : Q -> bool) (x : list Q) (r : run) : Prop :=
  let (s, e) := r in
  0 <= s <= e /\ e < Py.len x /\
  (forall j, s <= j <= e -> exists v, sample_at x j = Some v /\ cond v = true) /\
  (forall v, sample_at x (s - 1) = Some v -> cond v = false) /\
  (forall v, sample_at x (e + 1) = Some v -> cond v = false).

(** [peak_of x (s, e) m]: [m] is attained inside the span and no sample of
    the span exceeds it. *)
Definition peak_of (x : list Q) (r : run) (m : Q) : Prop :=
  (exists j, fst r <= j <= snd r /\ sample_at x j = Some m) /\
  (forall j v, fst r <= j <= snd r -> sample_at x j = Some v -> (v <= m)%Q).

(** ** Modes and thresholds *)

(** The predicate of a mode, as the source tests it. *)
Definition mode_cond (mode : string) (threshold : Q) : Q -> bool :=
  if String.eqb mode "below" then fun v => Py.Qltb v threshold
  else fun v => Py.Qgtb v threshold.

(** The predicate of a mode, as a proposition: strictly above the threshold
    for "above", strictly below it for "below". *)
Definition crosses (mode : string) (threshold v : Q) : Prop :=
  (mode = "above"%string /\ (threshold < v)%Q) \/
  (mode = "below"%string /\ (v < threshold)%Q).

(** The two modes the source knows. *)
Definition supported (mode : string) : Prop :=
  mode = "above"%string \/ mode = "below"%string.

(** [crossing_run mode threshold x r]: the inclusive span [r] lies inside
    [x], every sample of it satisfies the strict predicate of [mode], and
    the samples just before and just after it (when they exist) do not. *)
Definition crossing_run (mode : string) (threshold : Q) (x : list Q)
    (r : run) : Prop :=
  0 <= fst r <= snd r /\ snd r < Py.len x /\
  (forall j, fst r <= j <= snd r ->
     exists v, sample_at x j = Some v /\ crosses mode threshold v) /\
  (forall v, sample_at x (fst r - 1) = Some v -> ~ crosses mode threshold v) /\
  (forall v, sample_at x (snd r + 1) = Some v -> ~ crosses mode threshold v).

(** [starts_before r1 r2]: [r1] starts before [r2] does. *)
Definition starts_before (r1 r2 : run) : Prop := fst r1 < fst r2.

(** The directional constraint between the thresholds is violated. *)
Definition violates (mode : string) (PrimaryThreshold SecondaryThreshold : Q)
    : Prop :=
  (mode = "above"%string /\ (PrimaryThreshold < SecondaryThreshold)%Q) \/
  (mode = "below"%string /\ (SecondaryThreshold < PrimaryThreshold)%Q).

(** The secondary threshold is on the permitted side of the primary one. *)
Definition ordered (mode : string) (PrimaryThreshold SecondaryThreshold : Q)
    : Prop :=
  (mode = "above"%string /\ (SecondaryThreshold <= PrimaryThreshold)%Q) \/
  (mode = "below"%string /\ (PrimaryThreshold <= SecondaryThreshold)%Q).

(** A sample step is given whenever a duration criterion is. *)
Definition step_given (mtl ml xl ds : option Q) : Prop :=
  ds <> None \/ (mtl = None /\ ml = None /\ xl = None).

(** ** The stages of get_events_boundaries

    The body of [get_events_boundaries], cut at its two emptiness tests and
    at the removal of repeats; [staged_boundaries] chains the pieces and is
    proved equal to the function itself. *)

(** The primary runs that survive the [minThresholdLength] criterion: the
    body of [get_events_boundaries] up to its first emptiness test. *)
Definition primary_events (x : array Q) (PrimaryThreshold : Q)
    (minThresholdLength ds : option Q) (mode : string) : result (list run) :=
  do (events, _) <- find_threshold_crossing_events x PrimaryThreshold mode;
  match minThresholdLength with
  | Some minThresholdLength =>
      if 0 <? Py.len events then
        do d <- durations events ds;
        Ok (Py.compress (map (fun t => Py.Qgeb t minThresholdLength) d) events)
      else Ok events
  | None => Ok events
  end.

(** The pairing of every surviving primary run with a secondary run: the
    body from the threshold assertion to the two fancy-indexing lines. *)
Definition paired_windows (x : array Q) (events : list run)
    (PrimaryThreshold SecondaryThreshold : Q) (mode : string)
    : result (list run * list Q) :=
  do _ <-
    (if String.eqb mode "above" then
       assert (Qle_bool SecondaryThreshold PrimaryThreshold)
     else if String.eqb mode "below" then
       assert (Py.Qgeb SecondaryThreshold PrimaryThreshold)
     else Raise NotImplementedError);
  do (bounds, broader_maxes) <-
    find_threshold_crossing_events x SecondaryThreshold mode;
  do starts <- column0 bounds;
  let outer_boundary_indices :=
    map (fun i => i - 1) (map (fun e => Py.searchsorted starts (fst e)) events) in
  do bounds <- Py.take bounds outer_boundary_indices;
  do maxes <- Py.take broader_maxes outer_boundary_indices;
  Ok (bounds, maxes).

(** One length criterion applied to the three parallel arrays. *)
Definition length_filter (keep_duration : Q -> Q -> bool) (limit ds : option Q)
    (c : list run * list Q * list run) : result (list run * list Q * list run) :=
  let '(bounds, maxes, events) := c in
  match limit with
  | Some limit =>
      if 0 <? Py.len events then
        do d <- durations bounds ds;
        let keep := map (fun t => keep_duration t limit) d in
        Ok (Py.compress keep bounds, Py.compress keep maxes,
            Py.compress keep events)
      else Ok (bounds, maxes, events)
  | None => Ok (bounds, maxes, events)
  end.

(** The candidate windows: one per surviving primary run, after the
    [minLength] and [maxLength] criteria and before repeats are removed. *)
Definition candidate_windows (x : array Q) (events : list run)
    (PrimaryThreshold SecondaryThreshold : Q) (minLength maxLength ds : option Q)
    (mode : string) : result (list run * list Q * list run) :=
  do (bounds, maxes) <-
    paired_windows x events PrimaryThreshold SecondaryThreshold mode;
  do c <- length_filter Py.Qgeb minLength ds (bounds, maxes, events);
  length_filter Qle_bool maxLength ds c.

(** The last lines: one row per distinct start of [bounds]. *)
Definition remove_repeats (c : list run * list Q * list run)
    : result (list run * list Q * list run) :=
  let '(bounds, maxes, events) := c in
  let unique_idx := Py.unique_index (map fst bounds) in
  do bounds <- Py.take bounds unique_idx;
  do maxes <- Py.take maxes unique_idx;
  do events <- Py.take events unique_idx;
  Ok (bounds, maxes, events).

(** The stages in sequence. *)
Definition staged_boundaries (x : ndarray)
    (PrimaryThreshold SecondaryThreshold : Q)
    (minThresholdLength minLength maxLength ds : option Q)
    (mode : string) : result (list run * list Q * list run) :=
  if (1 <? ndim (squeeze x))%nat then Raise TypeError else
  do events <- primary_events (as_array (squeeze x)) PrimaryThreshold
                 minThresholdLength ds mode;
  if Py.len events =? 0 then Ok ([], [], []) else
  do c <- candidate_windows (as_array (squeeze x)) events PrimaryThreshold
            SecondaryThreshold minLength maxLength ds mode;
  if Py.len (snd c) =? 0 then Ok ([], [], []) else remove_repeats c.

(** Inversion of a successful [bind]. *)
Ltac bind_ok H :=
  match type of H with
  | bind ?m _ = Ok _ =>
      let E := fresh "E" in
      destruct m eqn:E; [cbn [bind] in H|discriminate H]
  end.

(** ** Windows *)

(** The three arrays have one row per candidate. *)
Definition aligned (c : list run * list Q * list run) : Prop :=
  let '(bounds, maxes, events) := c in
  List.length bounds = List.length maxes /\
  List.length maxes = List.length events.

(** [contains w r]: the window [w] fully contains the run [r]. *)
Definition contains (w r : run) : Prop := fst w <= fst r /\ snd r <= snd w.

(** [first_with_start cb i w]: [w] is row [i] of the candidate windows and
    no earlier row has its start index. *)
Definition first_with_start (cb : list run) (i : nat) (w : run) : Prop :=
  nth_error cb i = Some w /\
  forall j w', (j < i)%nat -> nth_error cb j = Some w' -> fst w' <> fst w.

(** ** np.unique *)

(** Order on (index, value) pairs: by value, then by index. *)
Definition lex_lt (p q : Z * Z) : Prop :=
  snd p < snd q \/ (snd p = snd q /\ fst p < fst q).

(** Order on (index, value) pairs by value alone. *)
Definition value_lt (p q : Z * Z) : Prop := snd p < snd q.

(** The rows [np.unique] keeps from the sorted pairs, when the value before
    the first pair is [prev]. *)
Definition kept_from (prev : Z) (L : list (Z * Z)) : list (Z * Z) :=
  Py.compress (Py.unique_mask_from prev (map snd L)) L.

(** The rows [np.unique] keeps from the sorted pairs. *)
Definition kept (L : list (Z * Z)) : list (Z * Z) :=
  Py.compress (Py.unique_mask (map snd L)) L.

(** [first_position ar i v]: [i] is the first position of [ar] that holds
    [v]. *)
Definition first_position (ar : list Z) (i v : Z) : Prop :=
  0 <= i /\ nth_error ar (Z.to_nat i) = Some v /\
  forall j, nth_error ar j = Some v -> (Z.to_nat i <= j)%nat.

(** The (index, value) pairs behind [Py.unique_index]. *)
Definition unique_pairs (ar : list Z) : list (Z * Z) :=
  kept (Py.stable_sort_by_value (Py.enumerate ar)).

(** ** Segments *)

(** [is_break step data i]: the gap between positions [i] and [i+1] is at
    least twice the step. *)
Definition is_break (step : option Q) (data : list Q) (i : Z) : Prop :=
  exists s a b,
    step = Some s /\ sample_at data i = Some a /\
    sample_at data (i + 1) = Some b /\ (2 * s <= b - a)%Q.

(** The index spans cut by [breaks]: from 0 to the first break, from just
    after every break to the next one, and to the last index [n - 1]. *)
Definition spans (n : Z) (breaks : list Z) : list (Z * Z) :=
  combine (0 :: map (fun b => b + 1) breaks) (breaks ++ [n - 1]).

(** A segment holds the positions at the two ends of its span. *)
Definition segment_at (data : list Q) (span : Z * Z) (seg : Q * Q) : Prop :=
  sample_at data (fst span) = Some (fst seg) /\
  sample_at data (snd span) = Some (snd seg).

(** ** Segments of the generator branch *)

(** [unit_chunks data]: [data] cut wherever the next position is not
    exactly one more than the one before it. *)
Fixpoint unit_chunks (data : list Q) : list (list Q) :=
  match data with
  | [] => []
  | a :: data' =>
      match unit_chunks data' with
      | (b :: c) :: rest =>
          if Qeq_bool (b - a) 1 then (a :: b :: c) :: rest
          else [a] :: (b :: c) :: rest
      | _ => [[a]]
      end
  end.

(** The first and the last position of a chunk. *)
Definition ends (c : list Q) : Q * Q := (hd 0%Q c, List.last c 0%Q).

(** ** Orders of positions *)

(** [held_before seq i j]: position [i] of [seq] holds a smaller value than
    position [j], or the same value and [i] comes first. *)
Definition held_before (seq : list Z) (i j : Z) : Prop :=
  exists v w,
    0 <= i /\ 0 <= j /\
    nth_error seq (Z.to_nat i) = Some v /\ nth_error seq (Z.to_nat j) = Some w /\
    (v < w \/ (v = w /\ i < j)).

(** ** Exchanging two items *)

(** The position an index [i] stands for on an axis of length [n]. *)
Definition position (n : nat) (i : Z) : nat :=
  Z.to_nat (if i <? 0 then i + Z.of_nat n else i).

(** The indices an axis of length [n] accepts. *)
Definition in_range (n : nat) (i : Z) : Prop :=
  - Z.of_nat n <= i < Z.of_nat n.

(** [exchanged l l' p q]: [l'] is [l] with the items at [p] and [q]
    exchanged. *)
Definition exchanged {A : Type} (l l' : list A) (p q : nat) : Prop :=
  List.length l' = List.length l /\
  nth_error l' p = nth_error l q /\
  nth_error l' q = nth_error l p /\
  forall j, j <> p -> j <> q -> nth_error l' j = nth_error l j.

(** A two-dimensional array: every row has [ncols] items. *)
Definition rectangular {A : Type} (ncols : nat) (rows : list (list A)) : Prop :=
  Forall (fun row => List.length row = ncols) rows.

(** ** Nearest items and maxima *)

(** [first_minimum d i]: position [i] holds the least value of [d], and no
    earlier position holds it. *)
Definition first_minimum (d : list Q) (i : Z) : Prop :=
  0 <= i /\
  exists v,
    nth_error d (Z.to_nat i) = Some v /\
    forall j w, nth_error d j = Some w ->
      (v <= w)%Q /\ ((j < Z.to_nat i)%nat -> (v < w)%Q).

(** [nearest array val i]: the item at position [i] is as near to [val] as
    any item of [array], and strictly nearer than every earlier item. *)
Definition nearest (array : list Q) (val : Q) (i : Z) : Prop :=
  0 <= i /\
  exists a,
    nth_error array (Z.to_nat i) = Some a /\
    forall j b, nth_error array j = Some b ->
      (Qabs (a - val) <= Qabs (b - val))%Q /\
      ((j < Z.to_nat i)%nat -> (Qabs (a - val) < Qabs (b - val))%Q).

(** [first_maximum tc loc]: position [loc] holds the greatest value of [tc]
    and every earlier position holds a smaller one. *)
Definition first_maximum (tc : list Q) (loc : Z) : Prop :=
  0 <= loc /\
  exists v,
    nth_error tc (Z.to_nat loc) = Some v /\
    forall j w, nth_error tc j = Some w ->
      (w <= v)%Q /\ ((j < Z.to_nat loc)%nat -> (w < v)%Q).

(** [stamped t w ep]: the epoch [ep] holds the time stamps of [t] at the
    first and at the last position of the window [w]. *)
Definition stamped (t : list Q) (w : run) (ep : Q * Q) : Prop :=
  sample_at t (fst w) = Some (fst ep) /\ sample_at t (snd w) = Some (snd ep).

(* ================================================================= *)
(** * Properties *)

(** ** The loop of find_threshold_crossing_events as a map over groups *)

Lemma events_of_cons k v G :
  events_of ((k, v) :: G)
  = if truthy k then group_run (k, v) :: events_of G else events_of G.
Proof. unfold events_of, true_groups; simpl. now destruct (truthy k). Qed.

Lemma peaks_of_cons x k v G :
  peaks_of x ((k, v) :: G)
  = if truthy k then group_peak x (k, v) ++ peaks_of x G else peaks_of x G.
Proof. unfold peaks_of, true_groups; simpl. now destruct (truthy k). Qed.

Lemma crossing_fold (x : array Q) (G : list (Z * list (Z * Z))) :
  forall el em,
    fold_left (crossing_step x) G (el, em)
    = (el ++ events_of G, em ++ peaks_of x G).
Proof.
  induction G as [|[k v] G IH]; intros el em.
  - simpl. now rewrite !app_nil_r.
  - rewrite events_of_cons, peaks_of_cons. simpl.
    destruct (truthy k) eqn:Hk.
    + rewrite IH. unfold group_peak, group_run; simpl.
      destruct (Py.amax _); simpl; now rewrite <- ?app_assoc.
    + apply IH.
Qed.

(** ** The shape of groupby over an enumerated list *)

Lemma blocks_empty_groups i c : blocks i c [] -> c = [].
Proof. inversion 1; reflexivity. Qed.

Lemma blocks_head i c k g G :
  blocks i c ((k, g) :: G) -> exists c', c = k :: c'.
Proof.
  inversion 1; subst.
  - destruct n; [lia|]. simpl. eauto.
  - destruct n; [lia|]. simpl. eauto.
Qed.

Lemma groupby_blocks (c : list Z) :
  forall i, blocks i c (Py.groupby Z.eqb snd (Py.enumerate_from i c)).
Proof.
  induction c as [|a c IH]; intros i; simpl.
  - constructor.
  - specialize (IH (i + 1)).
    destruct (Py.groupby Z.eqb snd (Py.enumerate_from (i + 1) c)) as [|[k g] G].
    + apply blocks_empty_groups in IH. subst c.
      apply (blocks_last i a 1). lia.
    + simpl. destruct (Z.eqb_spec a k) as [->|Hne].
      * inversion IH; subst.
        -- apply (blocks_last i k (S n)). lia.
        -- change (k :: repeat k n ++ c0) with (repeat k (S n) ++ c0).
           apply (blocks_more i k (S n)); [lia|assumption|].
           replace (i + Z.of_nat (S n)) with (i + 1 + Z.of_nat n) by lia.
           assumption.
      * apply (blocks_more i a 1 k g G c); [lia|assumption|].
        exact IH.
Qed.

Lemma enumerate_from_last {A : Type} (l : list A) :
  forall i a d,
    fst (List.last (Py.enumerate_from i (a :: l)) d) = i + Py.len l.
Proof.
  unfold Py.len.
  induction l as [|b l IH]; intros i a d.
  - simpl. lia.
  - change (Py.enumerate_from i (a :: b :: l))
      with ((i, a) :: Py.enumerate_from (i + 1) (b :: l)).
    change (List.last ((i, a) :: Py.enumerate_from (i + 1) (b :: l)) d)
      with (List.last (Py.enumerate_from (i + 1) (b :: l)) d).
    rewrite IH. simpl List.length. lia.
Qed.

Lemma group_run_repeat i k n :
  (0 < n)%nat ->
  group_run (k, Py.enumerate_from i (repeat k n)) = (i, i + Z.of_nat n - 1).
Proof.
  destruct n as [|n]; [lia|]. intros _.
  unfold group_run. cbn [snd repeat].
  rewrite enumerate_from_last. unfold Py.len. rewrite repeat_length.
  simpl. f_equal. lia.
Qed.

Lemma blocks_events_from i c G :
  blocks i c G -> Forall (fun r => i <= fst r) (events_of G).
Proof.
  induction 1.
  - constructor.
  - rewrite events_of_cons. destruct (truthy k); [|constructor].
    rewrite group_run_repeat by assumption. repeat constructor. simpl. lia.
  - rewrite events_of_cons.
    assert (Forall (fun r => i <= fst r) (events_of ((k', g') :: G))) as Hrest.
    { eapply Forall_impl; [|exact IHblocks]. simpl. intros; lia. }
    destruct (truthy k); [|exact Hrest].
    rewrite group_run_repeat by assumption. constructor; [simpl; lia|exact Hrest].
Qed.

Lemma blocks_events_sorted i c G :
  blocks i c G -> StronglySorted before (events_of G).
Proof.
  induction 1.
  - constructor.
  - rewrite events_of_cons. destruct (truthy k); repeat constructor.
  - rewrite events_of_cons. destruct (truthy k); [|assumption].
    rewrite group_run_repeat by assumption. constructor; [assumption|].
    apply blocks_events_from in H1.
    eapply Forall_impl; [|exact H1]. unfold before. simpl. intros; lia.
Qed.

Lemma truthy_binary k : k = 0 \/ k = 1 -> truthy k = true -> k = 1.
Proof. intros [->| ->]; [discriminate|reflexivity]. Qed.

Lemma binary_app c1 c2 : binary (c1 ++ c2) <-> binary c1 /\ binary c2.
Proof. apply Forall_app. Qed.

Lemma binary_repeat k n : (0 < n)%nat -> binary (repeat k n) -> k = 0 \/ k = 1.
Proof.
  destruct n; [lia|]. intros _ H. inversion H; assumption.
Qed.

Lemma last_repeat {A : Type} (k d : A) n :
  (0 < n)%nat -> List.last (repeat k n) d = k.
Proof.
  induction n as [|[|n] IH]; intros Hn; [lia|reflexivity|].
  change (List.last (repeat k (S (S n))) d) with (List.last (repeat k (S n)) d).
  apply IH. lia.
Qed.

Lemma last_app_nonempty {A : Type} (l1 l2 : list A) (d : A) :
  l2 <> [] -> List.last (l1 ++ l2) d = List.last l2 d.
Proof.
  intros Hne. induction l1 as [|a l1 IH]; [reflexivity|].
  simpl app. destruct (l1 ++ l2) eqn:E.
  - apply app_eq_nil in E as [_ ->]. congruence.
  - rewrite <- IH. reflexivity.
Qed.

(** Every run of a binary [c] is a block of ones, with a zero (or the end
    of [c]) on either side. *)
Lemma blocks_events_split i c G :
  blocks i c G -> binary c ->
  forall s e, In (s, e) (events_of G) ->
    exists pre n post,
      c = pre ++ repeat 1 n ++ post /\ (0 < n)%nat /\
      s = i + Py.len pre /\ e = s + Z.of_nat n - 1 /\
      List.last pre 0 = 0 /\ hd 0 post = 0.
Proof.
  induction 1 as [i|i k n Hn|i k n k' g' G c Hn Hne Hb IH]; intros Hbin s e Hin.
  - destruct Hin.
  - rewrite events_of_cons in Hin.
    destruct (truthy k) eqn:Hk; [|destruct Hin].
    rewrite group_run_repeat in Hin by assumption.
    destruct Hin as [Heq|[]]. inversion Heq; subst.
    apply truthy_binary in Hk; [|eapply binary_repeat; eassumption]. subst k.
    exists [], n, []. rewrite app_nil_r. simpl. unfold Py.len. simpl.
    repeat split; auto; lia.
  - apply binary_app in Hbin as [Hbk Hbc].
    pose proof (binary_repeat _ _ Hn Hbk) as Hk01.
    destruct (blocks_head _ _ _ _ _ Hb) as [c' ->].
    assert (k' = 0 \/ k' = 1) as Hk'01 by (inversion Hbc; assumption).
    rewrite events_of_cons in Hin.
    assert (In (s, e) (events_of ((k', g') :: G)) ->
            exists pre n0 post,
              repeat k n ++ k' :: c' = pre ++ repeat 1 n0 ++ post /\ (0 < n0)%nat /\
              s = i + Py.len pre /\ e = s + Z.of_nat n0 - 1 /\
              List.last pre 0 = 0 /\ hd 0 post = 0) as Hrest.
    { intros Hin'.
      destruct (IH Hbc s e Hin') as (pre & m & post & Hc & Hm & Hs & He & Hl & Hh).
      exists (repeat k n ++ pre), m, post.
      rewrite Hc, <- app_assoc. repeat split; auto.
      - unfold Py.len in *. rewrite length_app, repeat_length. lia.
      - destruct pre as [|p pre].
        + (* the run starts right after the block of [k] *)
          rewrite app_nil_r.
          destruct m; [lia|]. simpl in Hc. inversion Hc; subst k'.
          assert (k = 0) by (destruct Hk01; congruence). subst k.
          now apply last_repeat.
        + rewrite last_app_nonempty; [assumption|discriminate]. }
    destruct (truthy k) eqn:Hk; [|auto].
    destruct Hin as [Heq|Hin]; [|auto].
    rewrite group_run_repeat in Heq by assumption. inversion Heq; subst.
    apply truthy_binary in Hk; [|assumption]. subst k.
    exists [], n, (k' :: c'). simpl. unfold Py.len. simpl.
    repeat split; auto; try lia.
Qed.

(** Every true item of [c] lies inside one of the runs. *)
Lemma blocks_events_cover i c G :
  blocks i c G ->
  forall j k, nth_error c j = Some k -> truthy k = true ->
    exists s e, In (s, e) (events_of G) /\ s <= i + Z.of_nat j <= e.
Proof.
  induction 1 as [i|i k n Hn|i k n k' g' G c Hn Hne Hb IH]; intros j k0 Hj Hk0.
  - destruct j; discriminate.
  - assert (j < n)%nat as Hlt.
    { rewrite <- (repeat_length k n). apply nth_error_Some. congruence. }
    rewrite nth_error_repeat in Hj by assumption. inversion Hj; subst k0.
    rewrite events_of_cons, Hk0, group_run_repeat by assumption.
    exists i, (i + Z.of_nat n - 1). split; [left; reflexivity|lia].
  - rewrite events_of_cons.
    destruct (Nat.lt_ge_cases j n) as [Hlt|Hge].
    + rewrite nth_error_app1 in Hj by (rewrite repeat_length; assumption).
      rewrite nth_error_repeat in Hj by assumption. inversion Hj; subst k0.
      rewrite Hk0, group_run_repeat by assumption.
      exists i, (i + Z.of_nat n - 1). split; [left; reflexivity|lia].
    + rewrite nth_error_app2 in Hj by (rewrite repeat_length; assumption).
      rewrite repeat_length in Hj.
      destruct (IH _ _ Hj Hk0) as (s & e & Hin & Hse).
      exists s, e. split; [destruct (truthy k); [right|]; assumption|lia].
Qed.

(** From the block decomposition to statements about single positions. *)
Lemma split_positions (c pre post : list Z) (n : nat) :
  c = pre ++ repeat 1 n ++ post ->
  List.last pre 0 = 0 -> hd 0 post = 0 ->
  (forall j, (List.length pre <= j < List.length pre + n)%nat ->
             nth_error c j = Some 1) /\
  (forall j k, (S j = List.length pre)%nat -> nth_error c j = Some k -> k = 0) /\
  (forall k, nth_error c (List.length pre + n) = Some k -> k = 0).
Proof.
  intros -> Hl Hh. repeat split.
  - intros j Hj. rewrite nth_error_app2 by lia.
    rewrite nth_error_app1 by (rewrite repeat_length; lia).
    apply nth_error_repeat. lia.
  - intros j k Hj Hk.
    destruct (exists_last (l := pre)) as (pre' & a & ->).
    { intros ->. discriminate. }
    rewrite last_last in Hl. subst a.
    rewrite length_app in Hj. simpl in Hj.
    rewrite <- app_assoc, nth_error_app2 in Hk by lia.
    replace (j - List.length pre')%nat with O in Hk by lia.
    simpl in Hk. congruence.
  - intros k Hk.
    rewrite nth_error_app2 in Hk by lia.
    rewrite nth_error_app2 in Hk by (rewrite repeat_length; lia).
    rewrite repeat_length in Hk.
    replace (List.length pre + n - List.length pre - n)%nat with O in Hk by lia.
    destruct post; simpl in *; congruence.
Qed.

(** ** Runs of a one-dimensional array under a predicate *)

Lemma indicator_binary cond x : binary (indicator cond x).
Proof.
  apply Forall_forall. intros k Hk. apply in_map_iff in Hk as (v & <- & _).
  destruct (cond v); auto.
Qed.

Lemma indicator_nth cond x j k :
  nth_error (indicator cond x) j = Some k ->
  exists v, nth_error x j = Some v /\ k = if cond v then 1 else 0.
Proof.
  unfold indicator. rewrite nth_error_map.
  destruct (nth_error x j) as [v|]; [|discriminate].
  simpl. intros [= <-]. eauto.
Qed.

Lemma groups_exact cond x :
  Forall (exact_run cond x) (events_of (groups_of cond x)).
Proof.
  apply Forall_forall. intros [s e] Hin.
  pose proof (groupby_blocks (indicator cond x) 0) as Hb.
  destruct (blocks_events_split _ _ _ Hb (indicator_binary cond x) s e Hin)
    as (pre & n & post & Hc & Hn & Hs & He & Hl & Hh).
  destruct (split_positions _ _ _ _ Hc Hl Hh) as (Hin1 & Hbefore & Hafter).
  assert (List.length (indicator cond x) = List.length x) as Hlen
    by apply length_map.
  assert (List.length (indicator cond x)
          = (List.length pre + (n + List.length post))%nat) as Hlen'.
  { rewrite Hc at 1. now rewrite !length_app, repeat_length. }
  unfold exact_run, Py.len in *. repeat split; try lia.
  - intros j Hj. unfold sample_at.
    destruct (Z.ltb_spec j 0); [lia|].
    destruct (indicator_nth cond x (Z.to_nat j) 1) as (v & Hv & Hcv).
    { apply Hin1. lia. }
    exists v. split; [assumption|]. destruct (cond v); [reflexivity|discriminate].
  - intros v. unfold sample_at.
    destruct (Z.ltb_spec (s - 1) 0); [discriminate|]. intros Hv.
    destruct (nth_error (indicator cond x) (Z.to_nat (s - 1))) as [k|] eqn:Hk.
    + assert (S (Z.to_nat (s - 1)) = List.length pre) as Hpos by lia.
      pose proof (Hbefore _ _ Hpos Hk). subst k.
      apply indicator_nth in Hk as (v' & Hv' & Hcv).
      assert (v' = v) by congruence. subst v'.
      destruct (cond v); [discriminate|reflexivity].
    + apply nth_error_None in Hk. rewrite Hlen in Hk.
      assert (nth_error x (Z.to_nat (s - 1)) = None) by (apply nth_error_None; lia).
      congruence.
  - intros v. unfold sample_at.
    destruct (Z.ltb_spec (e + 1) 0); [discriminate|]. intros Hv.
    destruct (nth_error (indicator cond x) (Z.to_nat (e + 1))) as [k|] eqn:Hk.
    + replace (Z.to_nat (e + 1)) with (List.length pre + n)%nat in Hk by lia.
      pose proof (Hafter _ Hk). subst k.
      apply indicator_nth in Hk as (v' & Hv' & Hcv).
      replace (Z.to_nat (e + 1)) with (List.length pre + n)%nat in Hv by lia.
      assert (v' = v) by congruence. subst v'.
      destruct (cond v); [discriminate|reflexivity].
    + apply nth_error_None in Hk. rewrite Hlen in Hk.
      assert (nth_error x (Z.to_nat (e + 1)) = None) by (apply nth_error_None; lia).
      congruence.
Qed.

Lemma groups_sorted cond x : StronglySorted before (events_of (groups_of cond x)).
Proof. exact (blocks_events_sorted _ _ _ (groupby_blocks _ 0)). Qed.

(** ** Maximum of a slice *)

Lemma Qmax_cases (a b : Q) :
  (Qmax a b = a /\ (b <= a)%Q) \/ (Qmax a b = b /\ (a <= b)%Q).
Proof.
  unfold Qmax, GenericMinMax.gmax.
  destruct (Qcompare_spec a b) as [He|Hl|Hg].
  - left. split; [reflexivity|]. rewrite He. apply Qle_refl.
  - right. split; [reflexivity|]. now apply Qlt_le_weak.
  - left. split; [reflexivity|]. now apply Qlt_le_weak.
Qed.

Lemma fold_Qmax_spec (l : list Q) :
  forall a,
    (fold_left Qmax l a = a \/ In (fold_left Qmax l a) l) /\
    (a <= fold_left Qmax l a)%Q /\
    (forall v, In v l -> (v <= fold_left Qmax l a)%Q).
Proof.
  induction l as [|b l IH]; intros a; simpl.
  - split; [now left|]. split; [apply Qle_refl|]. intros v [].
  - destruct (IH (Qmax a b)) as (Hin & Hle & Hall).
    destruct (Qmax_cases a b) as [[Hm Hba]|[Hm Hab]]; rewrite Hm in *.
    + split; [destruct Hin; auto|]. split; [assumption|].
      intros v [<-|Hv]; [eapply Qle_trans; eassumption|auto].
    + split; [destruct Hin; auto|]. split; [eapply Qle_trans; eassumption|].
      intros v [<-|Hv]; auto.
Qed.

Lemma amax_spec (l : list Q) (m : Q) :
  Py.amax l = Some m -> In m l /\ (forall v, In v l -> (v <= m)%Q).
Proof.
  destruct l as [|a l]; [discriminate|]. simpl. intros [= <-].
  destruct (fold_Qmax_spec l a) as (Hin & Hle & Hall).
  split; [destruct Hin as [->|]; auto|].
  intros v [<-|Hv]; auto.
Qed.

Lemma amax_nonempty (l : list Q) : l <> [] -> exists m, Py.amax l = Some m.
Proof. destruct l; [congruence|]. simpl. eauto. Qed.

(** The elements of [x[s:e+1]] are the samples at positions [s .. e]. *)
Lemma slice_in (x : list Q) (s e : Z) (v : Q) :
  0 <= s ->
  (In v (Py.slice x s (e + 1)) <->
   exists j, s <= j <= e /\ sample_at x j = Some v).
Proof.
  intros Hs. unfold Py.slice, sample_at. split.
  - intros Hin. apply In_nth_error in Hin as (i & Hi).
    rewrite nth_error_firstn in Hi.
    destruct (Nat.ltb_spec i (Z.to_nat (e + 1 - s))); [|discriminate].
    rewrite nth_error_skipn in Hi.
    exists (s + Z.of_nat i). split; [lia|].
    destruct (Z.ltb_spec (s + Z.of_nat i) 0); [lia|].
    replace (Z.to_nat (s + Z.of_nat i)) with (Z.to_nat s + i)%nat by lia.
    assumption.
  - intros (j & Hj & Hv).
    destruct (Z.ltb_spec j 0); [discriminate|].
    apply (nth_error_In _ (Z.to_nat (j - s))).
    rewrite nth_error_firstn.
    destruct (Nat.ltb_spec (Z.to_nat (j - s)) (Z.to_nat (e + 1 - s))); [|lia].
    rewrite nth_error_skipn.
    replace (Z.to_nat s + Z.to_nat (j - s))%nat with (Z.to_nat j) by lia.
    assumption.
Qed.

Lemma exact_run_peak cond x r :
  exact_run cond x r ->
  exists m, Py.amax (Py.slice x (fst r) (snd r + 1)) = Some m /\ peak_of x r m.
Proof.
  destruct r as [s e]. intros (Hse & He & Hin & _). simpl.
  destruct (Hin s ltac:(lia)) as (v & Hv & _).
  destruct (amax_nonempty (Py.slice x s (e + 1))) as (m & Hm).
  { intros Hnil.
    assert (In v (Py.slice x s (e + 1))) as Hv'.
    { apply slice_in; [lia|]. exists s. split; [lia|assumption]. }
    rewrite Hnil in Hv'. destruct Hv'. }
  exists m. split; [assumption|].
  apply amax_spec in Hm as (Hmin & Hmax). split; simpl.
  - apply slice_in in Hmin; [assumption|lia].
  - intros j w Hj Hw. apply Hmax. apply slice_in; [lia|]. eauto.
Qed.

Lemma groups_peaks cond x :
  Forall2 (peak_of x) (events_of (groups_of cond x))
    (peaks_of (Arr1 x) (groups_of cond x)).
Proof.
  pose proof (groups_exact cond x) as Hex.
  unfold events_of, peaks_of in *.
  induction (true_groups (groups_of cond x)) as [|kv TG IH];
    cbn [map flat_map] in *.
  - constructor.
  - inversion Hex; subst.
    destruct (exact_run_peak _ _ _ H1) as (m & Hm & Hp).
    unfold group_peak at 1. cbn [slice_array]. rewrite Hm.
    constructor; auto.
Qed.

(** ** The two modes *)

Lemma Qgtb_lt (v t : Q) : Py.Qgtb v t = true <-> (t < v)%Q.
Proof.
  unfold Py.Qgtb. rewrite negb_true_iff, <- not_true_iff_false, Qle_bool_iff.
  split; [apply Qnot_le_lt|apply Qlt_not_le].
Qed.

Lemma Qltb_lt (v t : Q) : Py.Qltb v t = true <-> (v < t)%Q.
Proof. unfold Py.Qltb. apply (Qgtb_lt t v). Qed.

Lemma mode_cond_crosses mode threshold v :
  supported mode ->
  (mode_cond mode threshold v = true <-> crosses mode threshold v).
Proof.
  unfold crosses, mode_cond. intros [-> | ->]; simpl.
  - rewrite Qgtb_lt. split; [auto|]. intros [[_ H]|[H _]]; [assumption|discriminate].
  - rewrite Qltb_lt. split; [auto|]. intros [[H _]|[_ H]]; [discriminate|assumption].
Qed.

Lemma find_crossing_eq (x : list Q) (threshold : Q) (mode : string) :
  supported mode ->
  find_threshold_crossing_events (Arr1 x) threshold mode
  = Ok (events_of (groups_of (mode_cond mode threshold) x),
        peaks_of (Arr1 x) (groups_of (mode_cond mode threshold) x)).
Proof.
  unfold find_threshold_crossing_events, groups_of, mode_cond, indicator.
  intros [-> | ->]; simpl; now rewrite crossing_fold.
Qed.

(** ** Runs in terms of the mode *)

Lemma exact_run_crossing mode threshold x r :
  supported mode ->
  exact_run (mode_cond mode threshold) x r -> crossing_run mode threshold x r.
Proof.
  intros Hm. destruct r as [s e]. intros (Hse & He & Hin & Hb & Ha).
  unfold crossing_run. simpl. repeat split; try lia.
  - intros j Hj. destruct (Hin j Hj) as (v & Hv & Hc).
    exists v. split; [assumption|]. now apply mode_cond_crosses.
  - intros v Hv Hc. apply (mode_cond_crosses _ threshold v Hm) in Hc.
    rewrite (Hb v Hv) in Hc. discriminate.
  - intros v Hv Hc. apply (mode_cond_crosses _ threshold v Hm) in Hc.
    rewrite (Ha v Hv) in Hc. discriminate.
Qed.

Lemma sorted_starts cond x (runs : list run) :
  Forall (exact_run cond x) runs ->
  StronglySorted before runs -> StronglySorted starts_before runs.
Proof.
  induction 2 as [|r runs Hs IH Hall]; constructor.
  - apply IH. now inversion H.
  - inversion H as [|? ? Hr _]; subst.
    eapply Forall_impl; [|exact Hall].
    destruct r as [s e]. destruct Hr as (Hse & _).
    unfold before, starts_before. simpl. intros; lia.
Qed.

(** ** The stages of get_events_boundaries *)

Lemma get_events_boundaries_staged x P S mtl ml xl ds mode :
  get_events_boundaries x P S mtl ml xl ds mode
  = staged_boundaries x P S mtl ml xl ds mode.
Proof.
  unfold get_events_boundaries, staged_boundaries.
  destruct (1 <? ndim (squeeze x))%nat; [reflexivity|].
  unfold primary_events.
  destruct (find_threshold_crossing_events (as_array (squeeze x)) P mode)
    as [[events peaks]|err]; [|reflexivity].
  cbn [bind].
  match goal with
  | |- bind ?m _ = bind ?m _ => destruct m as [ev|err]; [|reflexivity]
  end.
  cbn [bind].
  destruct (Py.len ev =? 0); [reflexivity|].
  unfold candidate_windows, paired_windows.
  match goal with
  | |- bind ?m _ = bind (bind (bind ?m _) _) _ =>
      destruct m as [u|err]; [|reflexivity]
  end.
  cbn [bind].
  destruct (find_threshold_crossing_events (as_array (squeeze x)) S mode)
    as [[bounds broader]|err]; [|reflexivity].
  cbn [bind].
  destruct (column0 bounds) as [starts|err]; [|reflexivity].
  cbn [bind].
  match goal with
  | |- context [Py.take bounds ?idx] =>
      destruct (Py.take bounds idx) as [b|err]; [|reflexivity];
      cbn [bind];
      destruct (Py.take broader idx) as [m|err]; [|reflexivity]
  end.
  cbn [bind]. unfold length_filter at 2.
  match goal with
  | |- bind ?m _ = bind (bind ?m' _) _ =>
      change m' with m; destruct m as [[[b1 m1] e1]|err]; [|reflexivity]
  end.
  cbn [bind]. unfold length_filter.
  match goal with
  | |- bind ?m _ = bind ?m' _ =>
      change m' with m; destruct m as [[[b2 m2] e2]|err]; [|reflexivity]
  end.
  cbn [bind snd]. reflexivity.
Qed.

(** ** Lengths of the three parallel results *)

Lemma mapM_length {A B : Type} (f : A -> result B) (l : list A) :
  forall r, mapM f l = Ok r -> List.length r = List.length l.
Proof.
  induction l as [|a l IH]; intros r H; simpl in H.
  - now inversion H.
  - bind_ok H. bind_ok H. inversion H; subst. simpl. f_equal. now apply IH.
Qed.

Lemma take_length {A : Type} (l : list A) (idx : list Z) (r : list A) :
  Py.take l idx = Ok r -> List.length r = List.length idx.
Proof. apply mapM_length. Qed.

Lemma compress_length {A B : Type} (keep : list bool) :
  forall (l1 : list A) (l2 : list B),
    List.length l1 = List.length l2 ->
    List.length (Py.compress keep l1) = List.length (Py.compress keep l2).
Proof.
  induction keep as [|k keep IH]; intros [|a l1] [|b l2] H;
    try discriminate; try reflexivity.
  simpl. destruct k; simpl; auto.
Qed.

Lemma paired_windows_aligned x events P S mode b m :
  paired_windows x events P S mode = Ok (b, m) -> aligned (b, m, events).
Proof.
  unfold paired_windows. intros H.
  bind_ok H. bind_ok H. destruct a0 as [bounds broader].
  bind_ok H. bind_ok H. bind_ok H. inversion H; subst.
  repeat match goal with
         | T : Py.take _ _ = Ok _ |- _ => apply take_length in T
         end.
  rewrite !length_map in *. unfold aligned in *. split; congruence.
Qed.

Lemma length_filter_aligned keep limit ds c c' :
  length_filter keep limit ds c = Ok c' -> aligned c -> aligned c'.
Proof.
  destruct c as [[b m] e]. unfold length_filter.
  destruct limit as [t|]; [|now intros [= <-]].
  destruct (0 <? Py.len e); [|now intros [= <-]].
  intros H [Hbm Hme]. bind_ok H. inversion H; subst. split.
  - now apply compress_length.
  - now apply compress_length.
Qed.

Lemma remove_repeats_aligned c c' : remove_repeats c = Ok c' -> aligned c'.
Proof.
  destruct c as [[b m] e]. unfold remove_repeats. intros H.
  bind_ok H. bind_ok H. bind_ok H. inversion H; subst.
  repeat match goal with
         | T : Py.take _ _ = Ok _ |- _ => apply take_length in T
         end.
  unfold aligned in *. split; congruence.
Qed.

Lemma staged_boundaries_aligned x P S mtl ml xl ds mode c :
  staged_boundaries x P S mtl ml xl ds mode = Ok c -> aligned c.
Proof.
  unfold staged_boundaries. intros H.
  destruct (1 <? ndim (squeeze x))%nat; [discriminate|].
  bind_ok H.
  destruct (Py.len a =? 0); [inversion H; subst; now split|].
  bind_ok H.
  destruct (Py.len (snd a0) =? 0); [inversion H; subst; now split|].
  now apply remove_repeats_aligned in H.
Qed.

(** ** Usage errors *)

Lemma unsupported_eqb mode :
  ~ supported mode ->
  String.eqb mode "below" = false /\ String.eqb mode "above" = false.
Proof.
  unfold supported. intros H. split; apply String.eqb_neq; intros ->; auto.
Qed.

Lemma find_crossing_unsupported x threshold mode :
  ~ supported mode ->
  find_threshold_crossing_events x threshold mode = Raise NotImplementedError.
Proof.
  intros H. destruct (unsupported_eqb mode H) as [Hb Ha].
  unfold find_threshold_crossing_events. now rewrite Hb, Ha.
Qed.

Lemma paired_windows_violation x events P S mode :
  violates mode P S ->
  paired_windows x events P S mode = Raise AssertionError.
Proof.
  unfold paired_windows, violates, Py.Qgeb.
  intros [[-> H]|[-> H]]; simpl.
  - destruct (Qle_bool S P) eqn:E; [|reflexivity].
    apply Qle_bool_iff in E. now apply Qlt_not_le in H.
  - destruct (Qle_bool P S) eqn:E; [|reflexivity].
    apply Qle_bool_iff in E. now apply Qlt_not_le in H.
Qed.

(** ** np.unique with return_index *)

Lemma compress_map {A B : Type} (f : A -> B) (mask : list bool) :
  forall l, Py.compress mask (map f l) = map f (Py.compress mask l).
Proof.
  induction mask as [|b mask IH]; intros [|a l]; simpl; auto.
  destruct b; simpl; now rewrite IH.
Qed.

Lemma insert_by_value_in p q l :
  In q (Py.insert_by_value p l) <-> q = p \/ In q l.
Proof.
  induction l as [|r l IH]; simpl.
  - intuition.
  - destruct (snd p <=? snd r); simpl; rewrite ?IH; intuition.
Qed.

Lemma stable_sort_in q l : In q (Py.stable_sort_by_value l) <-> In q l.
Proof.
  induction l as [|p l IH]; simpl; [tauto|].
  rewrite insert_by_value_in, IH. intuition.
Qed.

Lemma lex_lt_value_le p q : lex_lt p q -> snd p <= snd q.
Proof. unfold lex_lt. lia. Qed.

Lemma insert_by_value_sorted p l :
  StronglySorted lex_lt l ->
  Forall (fun q => fst p < fst q) l ->
  StronglySorted lex_lt (Py.insert_by_value p l).
Proof.
  induction 1 as [|r l Hs IH Hr]; intros Hp; simpl.
  - repeat constructor.
  - inversion Hp as [|? ? Hpr Hpl]; subst.
    destruct (Z.leb_spec (snd p) (snd r)) as [Hle|Hgt].
    + constructor; [constructor; assumption|].
      constructor; [unfold lex_lt; lia|].
      apply Forall_forall. intros q Hq.
      pose proof (proj1 (Forall_forall _ _) Hr q Hq) as Hrq.
      pose proof (proj1 (Forall_forall _ _) Hpl q Hq) as Hpq.
      apply lex_lt_value_le in Hrq. unfold lex_lt. simpl in *. lia.
    + constructor; [auto|].
      apply Forall_forall. intros q Hq.
      apply insert_by_value_in in Hq as [->|Hq].
      * unfold lex_lt. lia.
      * exact (proj1 (Forall_forall _ _) Hr q Hq).
Qed.

Lemma enumerate_from_in {A : Type} (l : list A) :
  forall k i a,
    In (i, a) (Py.enumerate_from k l) <->
    k <= i /\ nth_error l (Z.to_nat (i - k)) = Some a.
Proof.
  induction l as [|b l IH]; intros k i a; simpl.
  - split; [tauto|]. intros [_ H]. destruct (Z.to_nat (i - k)); discriminate.
  - rewrite IH. split.
    + intros [[= <- <-]|[Hk Hn]].
      * split; [lia|]. now replace (Z.to_nat (k - k)) with O by lia.
      * split; [lia|].
        replace (Z.to_nat (i - k)) with (S (Z.to_nat (i - (k + 1)))) by lia.
        exact Hn.
    + intros [Hk Hn]. destruct (Z.eq_dec i k) as [->|Hne].
      * left. replace (Z.to_nat (k - k)) with O in Hn by lia.
        simpl in Hn. congruence.
      * right. split; [lia|].
        replace (Z.to_nat (i - k)) with (S (Z.to_nat (i - (k + 1)))) in Hn by lia.
        exact Hn.
Qed.

Lemma stable_sort_enumerate_sorted (ar : list Z) :
  forall k, StronglySorted lex_lt (Py.stable_sort_by_value (Py.enumerate_from k ar)).
Proof.
  induction ar as [|a ar IH]; intros k; simpl.
  - constructor.
  - apply insert_by_value_sorted; [apply IH|].
    apply Forall_forall. intros [i v] Hq.
    apply stable_sort_in, enumerate_from_in in Hq. simpl. lia.
Qed.

Lemma kept_from_spec (L : list (Z * Z)) :
  StronglySorted lex_lt L ->
  forall p0, Forall (lex_lt p0) L ->
    (forall p, In p (kept_from (snd p0) L) -> In p L /\ snd p0 < snd p) /\
    StronglySorted value_lt (kept_from (snd p0) L) /\
    (forall q, In q L ->
       snd q = snd p0 \/
       exists p, In p (kept_from (snd p0) L) /\ snd p = snd q /\ fst p <= fst q).
Proof.
  induction 1 as [|q L Hs IH Hq]; intros p0 Hp0.
  - unfold kept_from. simpl. repeat split; try tauto. constructor.
  - inversion Hp0 as [|? ? Hp0q Hp0L]; subst.
    unfold kept_from. simpl.
    destruct (Z.eqb_spec (snd q) (snd p0)) as [Heq|Hne]; simpl.
    + rewrite Heq. fold (kept_from (snd p0) L).
      destruct (IH p0 Hp0L) as (Hin & Hsorted & Hcov).
      repeat split.
      * right. now apply Hin.
      * now apply Hin.
      * assumption.
      * intros r [<-|Hr]; [now left|now apply Hcov].
    + fold (kept_from (snd q) L).
      destruct (IH q Hq) as (Hin & Hsorted & Hcov).
      assert (snd p0 < snd q) as Hlt by (unfold lex_lt in Hp0q; lia).
      repeat split.
      * destruct H as [<-|Hp]; [now left|right; now apply Hin].
      * destruct H as [<-|Hp]; [assumption|].
        apply Hin in Hp. lia.
      * constructor; [assumption|].
        apply Forall_forall. intros p Hp. apply Hin in Hp. unfold value_lt. lia.
      * intros r [<-|Hr].
        -- right. exists q. split; [now left|lia].
        -- destruct (Hcov r Hr) as [Heq|(p & Hp & Hv & Hi)].
           ++ right. exists q. split; [now left|]. split; [congruence|].
              pose proof (proj1 (Forall_forall _ _) Hq r Hr) as Hqr.
              unfold lex_lt in Hqr. lia.
           ++ right. exists p. split; [now right|auto].
Qed.

Lemma kept_spec (L : list (Z * Z)) :
  StronglySorted lex_lt L ->
  (forall p, In p (kept L) -> In p L) /\
  StronglySorted value_lt (kept L) /\
  (forall q, In q L ->
     exists p, In p (kept L) /\ snd p = snd q /\ fst p <= fst q).
Proof.
  intros Hs. destruct L as [|q L].
  - unfold kept. simpl. repeat split; try tauto. constructor.
  - inversion Hs as [|? ? HsL Hq]; subst.
    destruct (kept_from_spec L HsL q Hq) as (Hin & Hsorted & Hcov).
    unfold kept. simpl. fold (kept_from (snd q) L). repeat split.
    + intros p [<-|Hp]; [now left|right; now apply Hin].
    + constructor; [assumption|].
      apply Forall_forall. intros p Hp. apply Hin in Hp. unfold value_lt. lia.
    + intros r [<-|Hr].
      * exists q. split; [now left|lia].
      * destruct (Hcov r Hr) as [Heq|(p & Hp & Hv & Hi)].
        -- exists q. split; [now left|]. split; [congruence|].
           pose proof (proj1 (Forall_forall _ _) Hq r Hr) as Hqr.
           unfold lex_lt in Hqr. lia.
        -- exists p. split; [now right|auto].
Qed.

Lemma unique_index_pairs ar : Py.unique_index ar = map fst (unique_pairs ar).
Proof. unfold Py.unique_index, unique_pairs, kept. apply compress_map. Qed.

Lemma value_sorted_unique (K : list (Z * Z)) :
  StronglySorted value_lt K ->
  forall p q, In p K -> In q K -> snd p = snd q -> p = q.
Proof.
  induction 1 as [|r K Hs IH Hr]; intros p q Hp Hq Heq; [destruct Hp|].
  pose proof (proj1 (Forall_forall _ _) Hr) as Hall. unfold value_lt in Hall.
  destruct Hp as [<-|Hp], Hq as [<-|Hq]; auto.
  - specialize (Hall q Hq). lia.
  - specialize (Hall p Hp). lia.
Qed.

Lemma unique_pairs_spec (ar : list Z) :
  Forall (fun p => first_position ar (fst p) (snd p)) (unique_pairs ar) /\
  StronglySorted value_lt (unique_pairs ar) /\
  (forall j v, nth_error ar j = Some v -> In v (map snd (unique_pairs ar))).
Proof.
  unfold unique_pairs, Py.enumerate.
  destruct (kept_spec _ (stable_sort_enumerate_sorted ar 0))
    as (Hin & Hsorted & Hcov).
  assert (forall j v, nth_error ar j = Some v ->
            In (Z.of_nat j, v)
              (Py.stable_sort_by_value (Py.enumerate_from 0 ar))) as Hmem.
  { intros j v Hj. apply stable_sort_in, enumerate_from_in.
    split; [lia|]. now replace (Z.to_nat (Z.of_nat j - 0)) with j by lia. }
  repeat split.
  - apply Forall_forall. intros [i v] Hp. simpl.
    pose proof (Hin _ Hp) as HpL.
    apply stable_sort_in, enumerate_from_in in HpL as [Hi Hv].
    rewrite Z.sub_0_r in Hv. repeat split; [assumption|assumption|].
    intros j Hj.
    destruct (Hcov _ (Hmem j v Hj)) as (p' & Hp' & Hv' & Hi').
    assert (p' = (i, v)) as ->
      by (eapply value_sorted_unique; eauto).
    simpl in Hi'. lia.
  - assumption.
  - intros j v Hj.
    destruct (Hcov _ (Hmem j v Hj)) as (p' & Hp' & Hv' & _).
    apply in_map_iff. exists p'. auto.
Qed.

(** ** Removing repeated windows *)

Lemma mapM_Forall2 {A B : Type} (f : A -> result B) (l : list A) :
  forall r, mapM f l = Ok r -> Forall2 (fun a b => f a = Ok b) l r.
Proof.
  induction l as [|a l IH]; intros r H; simpl in H.
  - inversion H. constructor.
  - bind_ok H. bind_ok H. inversion H; subst. constructor; auto.
Qed.

Lemma index_nth {A : Type} (l : list A) (i : Z) (a : A) :
  0 <= i -> Py.index l i = Ok a -> nth_error l (Z.to_nat i) = Some a.
Proof.
  unfold Py.index. intros Hi.
  destruct (Z.ltb_spec i 0); [lia|].
  destruct ((0 <=? i) && (i <? Py.len l)); [|discriminate].
  destruct (nth_error l (Z.to_nat i)); [|discriminate].
  now intros [= ->].
Qed.

Lemma take_rows {A : Type} (l : list A) (K : list (Z * Z)) (r : list A) :
  Forall (fun p => 0 <= fst p) K ->
  Py.take l (map fst K) = Ok r ->
  Forall2 (fun p a => nth_error l (Z.to_nat (fst p)) = Some a) K r.
Proof.
  intros Hpos H. apply mapM_Forall2 in H.
  remember (map fst K) as idx eqn:Hidx. revert K Hpos Hidx.
  induction H as [|i a idx r Hi H IH]; intros [|p K] Hpos Hidx;
    try discriminate; constructor.
  - inversion Hidx; subst. inversion Hpos; subst. now apply index_nth.
  - inversion Hidx; subst. inversion Hpos; subst. now apply IH.
Qed.

Lemma Forall2_map_l {A B C : Type} (f : A -> B) (R : B -> C -> Prop) l r :
  Forall2 (fun a c => R (f a) c) l r -> Forall2 R (map f l) r.
Proof. induction 1; simpl; constructor; auto. Qed.

Lemma value_sorted_lt (K : list (Z * Z)) :
  StronglySorted value_lt K -> StronglySorted Z.lt (map snd K).
Proof.
  induction 1 as [|p K Hs IH Hp]; simpl; constructor; auto.
  apply Forall_forall. intros v Hv. apply in_map_iff in Hv as (q & <- & Hq).
  exact (proj1 (Forall_forall _ _) Hp q Hq).
Qed.

Lemma sorted_lt_NoDup (l : list Z) : StronglySorted Z.lt l -> NoDup l.
Proof.
  induction 1 as [|a l Hs IH Ha]; constructor; auto.
  intros Hin. pose proof (proj1 (Forall_forall _ _) Ha a Hin). lia.
Qed.

Lemma remove_repeats_spec cb cm ce b m e :
  remove_repeats (cb, cm, ce) = Ok (b, m, e) ->
  exists positions : list nat,
    NoDup (map fst b) /\
    StronglySorted Z.lt (map fst b) /\
    (forall w, In w cb -> In (fst w) (map fst b)) /\
    Forall2 (first_with_start cb) positions b /\
    Forall2 (fun i pk => nth_error cm i = Some pk) positions m /\
    Forall2 (fun i ev => nth_error ce i = Some ev) positions e.
Proof.
  unfold remove_repeats. rewrite unique_index_pairs. intros H.
  bind_ok H. bind_ok H. bind_ok H. inversion H; subst. clear H.
  destruct (unique_pairs_spec (map fst cb)) as (Hfirst & Hsorted & Hcov).
  set (K := unique_pairs (map fst cb)) in *.
  assert (Forall (fun p => 0 <= fst p) K) as Hpos.
  { eapply Forall_impl; [|exact Hfirst]. intros p Hp. apply Hp. }
  apply (take_rows _ _ _ Hpos) in E, E0, E1.
  assert (Forall2 (fun p w => first_with_start cb (Z.to_nat (fst p)) w
                              /\ fst w = snd p) K b) as Hrows.
  { clear - E Hfirst. induction E as [|p w K b Hp E IH]; constructor.
    - inversion Hfirst as [|? ? (Hi & Hv & Hmin) _]; subst.
      rewrite nth_error_map, Hp in Hv. simpl in Hv. inversion Hv as [Hw].
      repeat split; auto.
      intros j w' Hj Hw' Heq.
      assert (nth_error (map fst cb) j = Some (snd p)) as Hj'.
      { rewrite nth_error_map, Hw'. simpl. congruence. }
      apply Hmin in Hj'. lia.
    - apply IH. now inversion Hfirst. }
  assert (map fst b = map snd K) as Hstarts.
  { clear - Hrows. induction Hrows as [|p w K b [_ Hw] _ IH]; simpl; congruence. }
  exists (map (fun p => Z.to_nat (fst p)) K).
  rewrite Hstarts. repeat split.
  - apply sorted_lt_NoDup. now apply value_sorted_lt.
  - now apply value_sorted_lt.
  - intros w Hw. apply In_nth_error in Hw as (j & Hj).
    apply (Hcov j). now rewrite nth_error_map, Hj.
  - apply Forall2_map_l. eapply Forall2_impl; [|exact Hrows]. now intros p w [Hw _].
  - apply Forall2_map_l. exact E0.
  - apply Forall2_map_l. exact E1.
Qed.

(** ** No crossing at all *)

Lemma find_crossing_none (x : list Q) (threshold : Q) (mode : string) :
  supported mode ->
  (forall v, In v x -> ~ crosses mode threshold v) ->
  find_threshold_crossing_events (Arr1 x) threshold mode = Ok ([], []).
Proof.
  intros Hm Hnone. rewrite find_crossing_eq by assumption.
  pose proof (groups_exact (mode_cond mode threshold) x) as Hex.
  pose proof (groups_peaks (mode_cond mode threshold) x) as Hpk.
  destruct (events_of (groups_of (mode_cond mode threshold) x)) as [|[s e] runs].
  - inversion Hpk. reflexivity.
  - exfalso. inversion Hex as [|? ? Hr _]; subst.
    destruct Hr as (Hse & He & Hin & _).
    destruct (Hin s ltac:(lia)) as (v & Hv & Hc).
    apply (Hnone v).
    + unfold sample_at in Hv. destruct (s <? 0); [discriminate|].
      eapply nth_error_In; eassumption.
    + now apply mode_cond_crosses.
Qed.

(** ** get_contiguous_segments *)

Lemma argwhere_from_in (mask : list bool) (k i : Z) :
  In i (map fst (filter snd (Py.enumerate_from k mask))) <->
  k <= i /\ nth_error mask (Z.to_nat (i - k)) = Some true.
Proof.
  rewrite in_map_iff. split.
  - intros ([j b] & <- & Hin). apply filter_In in Hin as [Hin Hb].
    simpl in *. subst b. now apply enumerate_from_in in Hin.
  - intros Hi. exists (i, true). split; [reflexivity|].
    apply filter_In. split; [|reflexivity]. now apply enumerate_from_in.
Qed.

Lemma argwhere_from_sorted (mask : list bool) :
  forall k, StronglySorted Z.lt (map fst (filter snd (Py.enumerate_from k mask))).
Proof.
  induction mask as [|b mask IH]; intros k; simpl.
  - constructor.
  - assert (Forall (Z.lt k)
              (map fst (filter snd (Py.enumerate_from (k + 1) mask)))) as Hlt.
    { apply Forall_forall. intros i Hi. apply argwhere_from_in in Hi. lia. }
    destruct b; simpl; [constructor; auto|apply IH].
Qed.

Lemma diff_nth (data : list Q) :
  forall i,
    nth_error (Py.diff data) i =
    match nth_error data i, nth_error data (S i) with
    | Some a, Some b => Some (b - a)%Q
    | _, _ => None
    end.
Proof.
  induction data as [|a [|b data] IH]; intros i.
  - now destruct i.
  - destruct i as [|[|i]]; reflexivity.
  - destruct i as [|i]; [reflexivity|].
    change (Py.diff (a :: b :: data)) with ((b - a)%Q :: Py.diff (b :: data)).
    cbn [nth_error]. apply (IH i).
Qed.

Lemma take_in_range {A : Type} (l : list A) (idx : list Z) :
  Forall (fun i => 0 <= i < Py.len l) idx ->
  exists r, Py.take l idx = Ok r /\
            Forall2 (fun i a => 0 <= i /\ nth_error l (Z.to_nat i) = Some a) idx r.
Proof.
  induction 1 as [|i idx Hi Hall (r & Hr & HF)].
  - exists []. split; constructor.
  - unfold Py.len in Hi.
    destruct (nth_error l (Z.to_nat i)) as [a|] eqn:Ha.
    + exists (a :: r). split.
      * unfold Py.take in *. simpl. rewrite Hr. unfold Py.index, Py.len.
        destruct (Z.ltb_spec i 0); [lia|].
        destruct (Z.leb_spec 0 i); [|lia].
        destruct (Z.ltb_spec i (Z.of_nat (List.length l))); [|lia].
        simpl. now rewrite Ha.
      * constructor; auto. split; [lia|assumption].
    + apply nth_error_None in Ha. lia.
Qed.

Lemma Forall2_combine {A B C D : Type} (R1 : A -> C -> Prop) (R2 : B -> D -> Prop)
    (l1 : list A) (r1 : list C) :
  Forall2 R1 l1 r1 ->
  forall (l2 : list B) (r2 : list D),
    Forall2 R2 l2 r2 ->
    Forall2 (fun p q => R1 (fst p) (fst q) /\ R2 (snd p) (snd q))
      (combine l1 l2) (combine r1 r2).
Proof.
  induction 1 as [|a c l1 r1 Hac H1 IH]; intros l2 r2 H2; simpl.
  - constructor.
  - destruct H2 as [|b d l2 r2 Hbd H2]; constructor; auto.
Qed.

Lemma gap_mask_break (data : list Q) (step : option Q) (i : Z) :
  In i (Py.argwhere (gap_mask data step)) <-> is_break step data i.
Proof.
  unfold Py.argwhere, Py.enumerate. rewrite argwhere_from_in.
  unfold gap_mask, is_break, sample_at. rewrite Z.sub_0_r, nth_error_map, diff_nth.
  split.
  - intros [Hi H]. destruct (Z.ltb_spec i 0); [lia|].
    destruct (Z.ltb_spec (i + 1) 0); [lia|].
    replace (Z.to_nat (i + 1)) with (S (Z.to_nat i)) by lia.
    destruct (nth_error data (Z.to_nat i)) as [a|]; [|discriminate].
    destruct (nth_error data (S (Z.to_nat i))) as [b|]; [|discriminate].
    destruct step as [s|]; [|discriminate]. simpl in H.
    exists s, a, b. repeat split. inversion H as [Hge].
    now apply Qle_bool_iff.
  - intros (s & a & b & -> & Ha & Hb & Hge).
    destruct (Z.ltb_spec i 0); [discriminate|].
    destruct (Z.ltb_spec (i + 1) 0); [discriminate|].
    replace (Z.to_nat (i + 1)) with (S (Z.to_nat i)) in Hb by lia.
    rewrite Ha, Hb. simpl. split; [assumption|].
    f_equal. now apply Qle_bool_iff.
Qed.

Lemma sample_at_nth (data : list Q) (i : Z) (a : Q) :
  0 <= i /\ nth_error data (Z.to_nat i) = Some a -> sample_at data i = Some a.
Proof.
  intros [Hi Ha]. unfold sample_at. now destruct (Z.ltb_spec i 0); [lia|].
Qed.

Lemma contiguous_in_memory_spec (data : list Q) (step : option Q) :
  data <> [] ->
  let used_step :=
    match step with
    | None => Py.median (Py.diff data)
    | Some s => Some s
    end in
  exists breaks segs,
    contiguous_in_memory data step = Ok segs /\
    StronglySorted Z.lt breaks /\
    (forall i, In i breaks <-> is_break used_step data i) /\
    Forall2 (segment_at data) (spans (Py.len data) breaks) segs.
Proof.
  intros Hne used_step. unfold contiguous_in_memory. fold used_step.
  set (breaks := Py.argwhere (gap_mask data used_step)).
  assert (forall i, In i breaks <-> is_break used_step data i) as Hbreaks
    by (intros i; apply gap_mask_break).
  assert (0 < Py.len data) as Hlen
    by (unfold Py.len; destruct data; [congruence|simpl; lia]).
  assert (forall i, In i breaks -> 0 <= i /\ i + 1 < Py.len data) as Hrange.
  { intros i Hi. apply Hbreaks in Hi as (s & a & b & _ & Ha & Hb & _).
    unfold sample_at, Py.len in *.
    destruct (Z.ltb_spec i 0); [discriminate|].
    destruct (Z.ltb_spec (i + 1) 0); [discriminate|].
    assert (nth_error data (Z.to_nat (i + 1)) <> None) as Hsome by congruence.
    apply nth_error_Some in Hsome. lia. }
  destruct (take_in_range data (0 :: map (fun b => b + 1) breaks))
    as (first & Hfirst & HF1).
  { constructor; [lia|]. apply Forall_forall. intros j Hj.
    apply in_map_iff in Hj as (i & <- & Hi). apply Hrange in Hi. lia. }
  destruct (take_in_range data (breaks ++ [Py.len data - 1]))
    as (last & Hlast & HF2).
  { apply Forall_app. split.
    - apply Forall_forall. intros i Hi. apply Hrange in Hi. lia.
    - repeat constructor; lia. }
  exists breaks, (combine first last).
  rewrite Hfirst, Hlast. cbn [bind]. repeat split.
  - apply argwhere_from_sorted.
  - apply Hbreaks.
  - apply Hbreaks.
  - unfold spans.
    eapply Forall2_impl; [|exact (Forall2_combine _ _ _ _ HF1 _ _ HF2)].
    intros span seg [H1 H2]. split; now apply sample_at_nth.
Qed.

(** ** get_events_boundaries returns under valid usage *)

Lemma as_array_1d (x : ndarray) :
  ndim (squeeze x) = 1%nat -> as_array (squeeze x) = Arr1 (flat x).
Proof.
  unfold ndim, as_array. destruct (shape (squeeze x)); [discriminate|reflexivity].
Qed.

Lemma compress_incl {A : Type} (mask : list bool) :
  forall (l : list A) a, In a (Py.compress mask l) -> In a l.
Proof.
  induction mask as [|b mask IH]; intros [|c l] a; simpl; try tauto.
  destruct b; simpl; intros H; [destruct H; auto|auto].
Qed.

Lemma index_in_range {A : Type} (l : list A) (i : Z) :
  - Py.len l <= i < Py.len l -> exists a, Py.index l i = Ok a.
Proof.
  unfold Py.index, Py.len. intros Hi.
  set (j := if i <? 0 then i + Z.of_nat (List.length l) else i).
  assert (0 <= j < Z.of_nat (List.length l)) as Hj
    by (unfold j; destruct (Z.ltb_spec i 0); lia).
  destruct (Z.leb_spec 0 j); [|lia].
  destruct (Z.ltb_spec j (Z.of_nat (List.length l))); [|lia]. simpl.
  destruct (nth_error l (Z.to_nat j)) as [a|] eqn:Ha; [eauto|].
  apply nth_error_None in Ha. lia.
Qed.

Lemma take_wrapping {A : Type} (l : list A) (idx : list Z) :
  Forall (fun i => - Py.len l <= i < Py.len l) idx ->
  exists r, Py.take l idx = Ok r.
Proof.
  induction 1 as [|i idx Hi Hall (r & Hr)].
  - exists []. reflexivity.
  - destruct (index_in_range l i Hi) as (a & Ha).
    exists (a :: r). unfold Py.take in *. simpl. now rewrite Ha, Hr.
Qed.

Lemma searchsorted_range (a : list Z) (v : Z) :
  0 <= Py.searchsorted a v <= Py.len a.
Proof.
  unfold Py.len. induction a as [|b a IH]; [simpl; lia|].
  cbn [Py.searchsorted List.length]. rewrite Nat2Z.inj_succ.
  destruct (b <? v); lia.
Qed.

(** [np.searchsorted] on an ascending array: everything before the
    insertion point is below [v], and the element at it, if any, is not. *)
Lemma searchsorted_spec (a : list Z) (v : Z) :
  StronglySorted Z.lt a ->
  (forall j b, (j < Z.to_nat (Py.searchsorted a v))%nat ->
               nth_error a j = Some b -> b < v) /\
  (forall b, nth_error a (Z.to_nat (Py.searchsorted a v)) = Some b -> v <= b).
Proof.
  induction 1 as [|c a Hs IH Hc]; cbn [Py.searchsorted].
  - split; [intros j b Hj; simpl in Hj; lia|intros b H; discriminate].
  - pose proof (searchsorted_range a v) as Hr.
    destruct (Z.ltb_spec c v) as [Hlt|Hge].
    + replace (Z.to_nat (1 + Py.searchsorted a v))
        with (S (Z.to_nat (Py.searchsorted a v))) by lia.
      destruct IH as [IH1 IH2]. split.
      * intros [|j] b Hj Hb; simpl in Hb; [congruence|].
        apply (IH1 j); [lia|assumption].
      * intros b Hb. simpl in Hb. auto.
    + split; [intros j b Hj; simpl in Hj; lia|].
      simpl. intros b [= <-]. assumption.
Qed.

Lemma ordered_cond mode P S v :
  ordered mode P S ->
  mode_cond mode P v = true -> mode_cond mode S v = true.
Proof.
  unfold mode_cond. intros [[-> H]|[-> H]]; simpl.
  - rewrite !Qgtb_lt. intros Hv. eapply Qle_lt_trans; eassumption.
  - rewrite !Qltb_lt. intros Hv. eapply Qlt_le_trans; eassumption.
Qed.

Lemma ordered_supported mode P S : ordered mode P S -> supported mode.
Proof. unfold supported. intros [[-> _]|[-> _]]; auto. Qed.

(** Under ordered thresholds, a primary run puts at least one run into the
    secondary pass. *)
Lemma secondary_runs_nonempty mode P S (x : list Q) (r : run) :
  ordered mode P S ->
  In r (events_of (groups_of (mode_cond mode P) x)) ->
  events_of (groups_of (mode_cond mode S) x) <> [].
Proof.
  intros Hord Hr.
  pose proof (proj1 (Forall_forall _ _) (groups_exact (mode_cond mode P) x) r Hr)
    as Hex.
  destruct r as [s e]. destruct Hex as (Hse & He & Hin & _).
  destruct (Hin s ltac:(lia)) as (v & Hv & Hc).
  unfold sample_at in Hv. destruct (Z.ltb_spec s 0); [lia|].
  apply (ordered_cond _ _ _ _ Hord) in Hc.
  destruct (blocks_events_cover 0 _ _
              (groupby_blocks (indicator (mode_cond mode S) x) 0)
              (Z.to_nat s) 1) as (s' & e' & Hin' & _).
  - unfold indicator. rewrite nth_error_map, Hv. simpl. now rewrite Hc.
  - reflexivity.
  - intros Hnil. unfold groups_of, Py.enumerate in Hnil.
    rewrite Hnil in Hin'. destruct Hin'.
Qed.

Lemma durations_given r ds :
  ds <> None -> exists d, durations r ds = Ok d.
Proof. destruct ds as [d|]; [intros _|congruence]. simpl. eauto. Qed.

Lemma length_filter_returns keep limit ds c :
  ds <> None \/ limit = None ->
  exists c', length_filter keep limit ds c = Ok c'.
Proof.
  destruct c as [[b m] e]. unfold length_filter.
  destruct limit as [t|]; [|eauto].
  intros [Hds|]; [|discriminate].
  destruct (0 <? Py.len e); [|eauto].
  destruct (durations_given b ds Hds) as (d & ->). cbn [bind]. eauto.
Qed.

Lemma remove_repeats_returns c :
  aligned c -> exists c', remove_repeats c = Ok c'.
Proof.
  destruct c as [[b m] e]. intros [Hbm Hme]. unfold remove_repeats.
  rewrite unique_index_pairs.
  destruct (unique_pairs_spec (map fst b)) as (Hfirst & _ & _).
  assert (Forall (fun i => 0 <= i < Py.len b)
            (map fst (unique_pairs (map fst b)))) as Hrange.
  { apply Forall_forall. intros i Hi. apply in_map_iff in Hi as (p & <- & Hp).
    destruct (proj1 (Forall_forall _ _) Hfirst p Hp) as (H0 & Hn & _).
    assert (nth_error (map fst b) (Z.to_nat (fst p)) <> None) as Hs by congruence.
    apply nth_error_Some in Hs. rewrite length_map in Hs.
    unfold Py.len in *. lia. }
  destruct (take_wrapping b (map fst (unique_pairs (map fst b)))) as (b' & ->).
  { eapply Forall_impl; [|exact Hrange]. simpl. intros; lia. }
  destruct (take_wrapping m (map fst (unique_pairs (map fst b)))) as (m' & ->).
  { eapply Forall_impl; [|exact Hrange]. unfold Py.len in *. simpl. intros; lia. }
  destruct (take_wrapping e (map fst (unique_pairs (map fst b)))) as (e' & ->).
  { eapply Forall_impl; [|exact Hrange]. unfold Py.len in *. simpl. intros; lia. }
  cbn [bind]. eauto.
Qed.

Lemma primary_events_returns (x : list Q) P mtl ds mode :
  supported mode -> ds <> None \/ mtl = None ->
  exists ev,
    primary_events (Arr1 x) P mtl ds mode = Ok ev /\
    incl ev (events_of (groups_of (mode_cond mode P) x)).
Proof.
  intros Hm Hds. unfold primary_events.
  rewrite find_crossing_eq by assumption. cbn [bind].
  destruct mtl as [t|]; [|eexists; split; [reflexivity|apply incl_refl]].
  destruct Hds as [Hds|]; [|discriminate].
  destruct (0 <? Py.len _); [|eexists; split; [reflexivity|apply incl_refl]].
  destruct (durations_given (events_of (groups_of (mode_cond mode P) x)) ds Hds)
    as (d & ->).
  cbn [bind]. eexists. split; [reflexivity|].
  intros r. apply compress_incl.
Qed.

Lemma paired_windows_returns (x : list Q) (ev : list run) P S mode :
  ordered mode P S ->
  ev <> [] -> incl ev (events_of (groups_of (mode_cond mode P) x)) ->
  exists b m, paired_windows (Arr1 x) ev P S mode = Ok (b, m).
Proof.
  intros Hord Hne Hincl. unfold paired_windows.
  assert ((if String.eqb mode "above"
           then assert (Qle_bool S P)
           else if String.eqb mode "below"
                then assert (Py.Qgeb S P)
                else Raise NotImplementedError) = Ok tt) as ->.
  { unfold Py.Qgeb. destruct Hord as [[-> H]|[-> H]]; simpl;
      apply Qle_bool_iff in H; now rewrite H. }
  cbn [bind].
  rewrite find_crossing_eq by (eapply ordered_supported; eassumption).
  cbn [bind].
  pose proof (groups_peaks (mode_cond mode S) x) as Hpk.
  apply Forall2_length in Hpk.
  destruct ev as [|r ev]; [congruence|].
  pose proof (secondary_runs_nonempty mode P S x r Hord (Hincl r (or_introl eq_refl)))
    as Hsec.
  remember (events_of (groups_of (mode_cond mode S) x)) as runs eqn:Hruns.
  remember (peaks_of (Arr1 x) (groups_of (mode_cond mode S) x)) as peaks.
  destruct runs as [|r0 runs']; [congruence|].
  cbn [column0 bind].
  set (runs0 := r0 :: runs') in *.
  assert (0 < Py.len runs0) as Hpos
    by (unfold Py.len, runs0; simpl; lia).
  set (idx := map (fun i => i - 1)
                (map (fun e : run => Py.searchsorted (map fst runs0) (fst e))
                   (r :: ev))).
  assert (Forall (fun i => - Py.len runs0 <= i < Py.len runs0) idx) as Hidx.
  { apply Forall_forall. intros i Hi. unfold idx in Hi.
    apply in_map_iff in Hi as (j & <- & Hj).
    apply in_map_iff in Hj as (e & <- & _).
    pose proof (searchsorted_range (map fst runs0) (fst e)) as Hr.
    unfold Py.len in *. rewrite length_map in Hr. lia. }
  destruct (take_wrapping runs0 idx Hidx) as (b & ->). cbn [bind].
  destruct (take_wrapping peaks idx) as (m & ->).
  { eapply Forall_impl; [|exact Hidx]. unfold Py.len in *.
    rewrite <- Hpk. intros; assumption. }
  cbn [bind]. eauto.
Qed.

(** Under valid usage the call returns: a one-dimensional input after
    squeezing, thresholds on the permitted sides for the mode, and a sample
    step whenever a duration criterion is given. *)
Lemma get_events_boundaries_returns x P S mtl ml xl ds mode :
  ndim (squeeze x) = 1%nat -> ordered mode P S -> step_given mtl ml xl ds ->
  exists c, get_events_boundaries x P S mtl ml xl ds mode = Ok c.
Proof.
  intros Hdim Hord Hstep.
  rewrite get_events_boundaries_staged. unfold staged_boundaries.
  rewrite as_array_1d by assumption. rewrite Hdim.
  change (1 <? 1)%nat with false. cbv iota.
  destruct (primary_events_returns (flat x) P mtl ds mode) as (ev & -> & Hincl).
  { eapply ordered_supported; eassumption. }
  { destruct Hstep as [H|(H & _)]; auto. }
  cbn [bind]. destruct (Z.eqb_spec (Py.len ev) 0) as [Hz|Hlen]; [eauto|].
  assert (ev <> []) as Hne by (intros ->; apply Hlen; reflexivity).
  unfold candidate_windows.
  destruct (paired_windows_returns (flat x) ev P S mode Hord Hne Hincl)
    as (b & m & Hpair).
  rewrite Hpair. cbn [bind].
  pose proof (paired_windows_aligned _ _ _ _ _ _ _ Hpair) as Hal.
  destruct (length_filter_returns Py.Qgeb ml ds (b, m, ev)) as (c1 & H1).
  { destruct Hstep as [H|(_ & H & _)]; auto. }
  rewrite H1. cbn [bind].
  destruct (length_filter_returns Qle_bool xl ds c1) as (c2 & H2).
  { destruct Hstep as [H|(_ & _ & H)]; auto. }
  rewrite H2. cbn [bind].
  pose proof (length_filter_aligned _ _ _ _ _ H1 Hal) as Hal1.
  pose proof (length_filter_aligned _ _ _ _ _ H2 Hal1) as Hal2.
  destruct (Py.len (snd c2) =? 0); [eauto|].
  apply remove_repeats_returns. assumption.
Qed.

(** ** Durations of what is returned *)

Lemma compress_map_self {A : Type} (f : A -> bool) (l : list A) :
  Py.compress (map f l) l = filter f l.
Proof.
  induction l as [|a l IH]; simpl; [reflexivity|].
  destruct (f a); now rewrite IH.
Qed.

Lemma durations_map r d :
  durations r (Some d) = Ok (map (duration d) r).
Proof. reflexivity. Qed.

Lemma primary_events_durations x P t ds mode ev :
  primary_events x P (Some t) ds mode = Ok ev ->
  forall d, ds = Some d -> Forall (fun r => (t <= duration d r)%Q) ev.
Proof.
  unfold primary_events. intros H d ->.
  bind_ok H. destruct a as [events peaks].
  destruct (Z.ltb_spec 0 (Py.len events)) as [Hpos|Hzero].
  - rewrite durations_map in H. cbn [bind] in H. inversion H; subst.
    rewrite map_map, compress_map_self.
    apply Forall_forall. intros r Hr. apply filter_In in Hr as [_ Hr].
    now apply Qle_bool_iff.
  - inversion H; subst. destruct ev; [constructor|].
    unfold Py.len in Hzero. simpl in Hzero. lia.
Qed.

Lemma length_filter_incl keep limit ds b m e b' m' e' :
  length_filter keep limit ds (b, m, e) = Ok (b', m', e') ->
  incl b' b /\ incl e' e.
Proof.
  unfold length_filter. destruct limit as [t|].
  - destruct (0 <? Py.len e).
    + intros H. bind_ok H. inversion H; subst.
      split; intros r; apply compress_incl.
    + intros [= <- <- <-]. split; apply incl_refl.
  - intros [= <- <- <-]. split; apply incl_refl.
Qed.

Lemma length_filter_durations keep t d b m e b' m' e' :
  length_filter keep (Some t) (Some d) (b, m, e) = Ok (b', m', e') ->
  aligned (b, m, e) ->
  Forall (fun w => keep (duration d w) t = true) b'.
Proof.
  unfold length_filter. intros H [Hbm Hme].
  destruct (Z.ltb_spec 0 (Py.len e)) as [Hpos|Hzero].
  - rewrite durations_map in H. cbn [bind] in H. inversion H; subst.
    rewrite map_map, compress_map_self.
    apply Forall_forall. intros r Hr. now apply filter_In in Hr as [_ Hr].
  - inversion H; subst. destruct b'; [constructor|].
    unfold Py.len in Hzero. destruct m'; [discriminate|].
    destruct e'; [discriminate|]. simpl in Hzero. lia.
Qed.

Lemma Forall2_nth_incl {A : Type} (l : list A) (positions : list nat) (r : list A) :
  Forall2 (fun i a => nth_error l i = Some a) positions r -> incl r l.
Proof.
  induction 1 as [|i a positions r Hi _ IH]; intros b Hb; [destruct Hb|].
  destruct Hb as [<-|Hb]; [eapply nth_error_In; eassumption|auto].
Qed.

(** Whatever [get_events_boundaries] returns respects the three duration
    criteria, each on its own rows: [minThresholdLength] on the durations of
    the returned primary runs, [minLength] and [maxLength] on the durations
    of the returned windows. *)
Lemma returned_durations_within_limits
    x P S mtl ml xl d mode bounds maxes events :
  get_events_boundaries x P S mtl ml xl (Some d) mode
  = Ok (bounds, maxes, events) ->
  (forall t, mtl = Some t -> Forall (fun r => (t <= duration d r)%Q) events) /\
  (forall t, ml = Some t -> Forall (fun w => (t <= duration d w)%Q) bounds) /\
  (forall t, xl = Some t -> Forall (fun w => (duration d w <= t)%Q) bounds).
Proof.
  rewrite get_events_boundaries_staged. unfold staged_boundaries. intros H.
  destruct (1 <? ndim (squeeze x))%nat; [discriminate|].
  bind_ok H. rename a into ev, E into Hev.
  destruct (Py.len ev =? 0);
    [inversion H; subst; repeat split; intros; constructor|].
  bind_ok H. destruct a as [[cb cm] ce].
  destruct (Py.len (snd (cb, cm, ce)) =? 0);
    [inversion H; subst; repeat split; intros; constructor|].
  unfold candidate_windows in E. bind_ok E. destruct a as [b0 m0].
  bind_ok E. destruct a as [[b1 m1] e1].
  pose proof (paired_windows_aligned _ _ _ _ _ _ _ E0) as Hal0.
  pose proof (length_filter_aligned _ _ _ _ _ E1 Hal0) as Hal1.
  destruct (length_filter_incl _ _ _ _ _ _ _ _ _ E1) as [Hb1 He1].
  destruct (length_filter_incl _ _ _ _ _ _ _ _ _ E) as [Hb2 He2].
  destruct (remove_repeats_spec _ _ _ _ _ _ H)
    as (positions & _ & _ & _ & Hrows & _ & Hevs).
  assert (incl bounds cb) as Hbounds.
  { apply (Forall2_nth_incl cb positions).
    eapply Forall2_impl; [|exact Hrows]. now intros i w [Hw _]. }
  pose proof (Forall2_nth_incl ce positions events Hevs) as Hevents.
  repeat split.
  - intros t ->.
    pose proof (primary_events_durations _ _ _ _ _ _ Hev d eq_refl) as Hall.
    apply Forall_forall. intros r Hr.
    apply (proj1 (Forall_forall _ _) Hall). auto.
  - intros t ->.
    pose proof (length_filter_durations _ _ _ _ _ _ _ _ _ E1 Hal0) as Hall.
    apply Forall_forall. intros w Hw. apply Qle_bool_iff.
    apply (proj1 (Forall_forall _ _) Hall w). auto.
  - intros t ->.
    pose proof (length_filter_durations _ _ _ _ _ _ _ _ _ E Hal1) as Hall.
    apply Forall_forall. intros w Hw. apply Qle_bool_iff.
    apply (proj1 (Forall_forall _ _) Hall w). auto.
Qed.

(** ** The sort behind np.median *)

Lemma insertQ_perm (a : Q) (l : list Q) : Permutation (a :: l) (Py.insertQ a l).
Proof.
  induction l as [|b l IH]; simpl; [reflexivity|].
  destruct (Qle_bool a b); [reflexivity|].
  rewrite perm_swap. now constructor.
Qed.

Lemma sortQ_perm (l : list Q) : Permutation l (Py.sortQ l).
Proof.
  induction l as [|a l IH]; simpl; [constructor|].
  rewrite <- insertQ_perm. now constructor.
Qed.

Lemma insertQ_sorted (a : Q) (l : list Q) :
  StronglySorted Qle l -> StronglySorted Qle (Py.insertQ a l).
Proof.
  induction 1 as [|b l Hs IH Hb]; simpl.
  - repeat constructor.
  - destruct (Qle_bool a b) eqn:E.
    + apply Qle_bool_iff in E. constructor; [now constructor|].
      constructor; [assumption|].
      eapply Forall_impl; [|exact Hb]. intros c Hc. eapply Qle_trans; eassumption.
    + assert (b <= a)%Q as Hba.
      { apply Qlt_le_weak, Qnot_le_lt. intros H. apply Qle_bool_iff in H. congruence. }
      constructor; [assumption|].
      apply (Permutation_Forall (insertQ_perm a l)). now constructor.
Qed.

Lemma sortQ_sorted (l : list Q) : StronglySorted Qle (Py.sortQ l).
Proof.
  induction l as [|a l IH]; simpl; [constructor|]. now apply insertQ_sorted.
Qed.

(* ================================================================= *)
(** * The claims *)

(** C1. On [x = [5, 0, 2, 0]] with thresholds 4 and 1 in mode above, the
    only primary run is [(0, 0)] and the secondary runs are [(0, 0)] and
    [(2, 2)]; the insertion point of start 0 among the secondary starts is
    0, so the index used is -1 and the window returned is the last
    secondary run [(2, 2)], with peak 2: it contains no primary run, and it
    is not the secondary run with the greatest start at or below 0. *)
Theorem alignment_pairs_foreign_window :
  find_threshold_crossing_events (Arr1 [5; 0; 2; 0]%Q) 4 "above"
  = Ok ([(0, 0)], [5%Q]) /\
  find_threshold_crossing_events (Arr1 [5; 0; 2; 0]%Q) 1 "above"
  = Ok ([(0, 0); (2, 2)], [5%Q; 2%Q]) /\
  map (fun i => i - 1) (map (fun e : run => Py.searchsorted [0; 2] (fst e)) [(0, 0)])
  = [-1] /\
  get_events_boundaries (mk_ndarray [4%nat] [5; 0; 2; 0]%Q) 4 1
    None None None None "above"
  = Ok ([(2, 2)], [2%Q], [(0, 0)]) /\
  ~ (exists r, In r [(0, 0)] /\ contains (2, 2) r).
Proof.
  repeat split; try (vm_compute; reflexivity).
  intros (r & [<-|[]] & Hs & He). simpl in Hs. lia.
Qed.

(** C2. On [x = [0, 2, 5, 2, 0, 0, 5, 0]] with thresholds 4 and 1 in mode
    above and no duration criteria, the primary runs are [(2, 2)] and
    [(6, 6)] and the secondary runs [(1, 3)] and [(6, 6)]; both primary runs
    are paired with the secondary run of index 0, and the call returns the
    single window [(1, 3)] with peak 5, not the two windows [(1, 3)] and
    [(6, 6)]. *)
Theorem scenario_returns_one_window :
  find_threshold_crossing_events (Arr1 [0; 2; 5; 2; 0; 0; 5; 0]%Q) 4 "above"
  = Ok ([(2, 2); (6, 6)], [5%Q; 5%Q]) /\
  find_threshold_crossing_events (Arr1 [0; 2; 5; 2; 0; 0; 5; 0]%Q) 1 "above"
  = Ok ([(1, 3); (6, 6)], [5%Q; 5%Q]) /\
  map (fun i => i - 1)
    (map (fun e : run => Py.searchsorted [1; 6] (fst e)) [(2, 2); (6, 6)])
  = [0; 0] /\
  get_events_boundaries (mk_ndarray [8%nat] [0; 2; 5; 2; 0; 0; 5; 0]%Q) 4 1
    None None None None "above"
  = Ok ([(1, 3)], [5%Q], [(2, 2)]) /\
  get_events_boundaries (mk_ndarray [8%nat] [0; 2; 5; 2; 0; 0; 5; 0]%Q) 4 1
    None None None None "above"
  <> Ok ([(1, 3); (6, 6)], [5%Q; 5%Q], [(2, 2); (6, 6)]).
Proof.
  repeat split; try (vm_compute; reflexivity).
  vm_compute. discriminate.
Qed.

(** C3. Whenever [get_events_boundaries] returns a non-empty result, the
    returned windows hold every start index of the candidate windows
    exactly once: their start indices are pairwise distinct (as many
    distinct starts as windows) and strictly ascending, and every returned
    row (window, peak, primary run) is the first candidate row, in
    candidate order, that has the window's start index. *)
Theorem get_events_boundaries_deduplicated
    x P S mtl ml xl ds mode bounds maxes events :
  get_events_boundaries x P S mtl ml xl ds mode = Ok (bounds, maxes, events) ->
  bounds <> [] ->
  exists ev cb cm ce (positions : list nat),
    primary_events (as_array (squeeze x)) P mtl ds mode = Ok ev /\
    candidate_windows (as_array (squeeze x)) ev P S ml xl ds mode
    = Ok (cb, cm, ce) /\
    NoDup (map fst bounds) /\
    StronglySorted Z.lt (map fst bounds) /\
    (forall w, In w cb -> In (fst w) (map fst bounds)) /\
    Forall2 (first_with_start cb) positions bounds /\
    Forall2 (fun i pk => nth_error cm i = Some pk) positions maxes /\
    Forall2 (fun i e => nth_error ce i = Some e) positions events.
Proof.
  rewrite get_events_boundaries_staged. unfold staged_boundaries.
  intros H Hne.
  destruct (1 <? ndim (squeeze x))%nat; [discriminate|].
  bind_ok H. rename a into ev.
  destruct (Py.len ev =? 0); [inversion H; subst; congruence|].
  bind_ok H. destruct a as [[cb cm] ce].
  destruct (Py.len (snd (cb, cm, ce)) =? 0); [inversion H; subst; congruence|].
  destruct (remove_repeats_spec _ _ _ _ _ _ H)
    as (positions & Hnd & Hso & Hcov & Hb & Hm & He).
  exists ev, cb, cm, ce, positions. repeat split; assumption.
Qed.

Lemma get_events_boundaries_deduplicated_witness :
  exists ev cb cm ce (positions : list nat),
    primary_events (Arr1 [0; 2; 5; 2; 5; 0; 0; 2; 5; 0]%Q) 4 None None "above"
    = Ok ev /\
    candidate_windows (Arr1 [0; 2; 5; 2; 5; 0; 0; 2; 5; 0]%Q) ev 4 1
      None None None "above" = Ok (cb, cm, ce) /\
    NoDup (map fst [(1, 4); (7, 8)]) /\
    StronglySorted Z.lt (map fst [(1, 4); (7, 8)]) /\
    (forall w, In w cb -> In (fst w) (map fst [(1, 4); (7, 8)])) /\
    Forall2 (first_with_start cb) positions [(1, 4); (7, 8)] /\
    Forall2 (fun i pk => nth_error cm i = Some pk) positions [5%Q; 5%Q] /\
    Forall2 (fun i e => nth_error ce i = Some e) positions [(2, 2); (8, 8)].
Proof.
  apply (get_events_boundaries_deduplicated
           (mk_ndarray [10%nat] [0; 2; 5; 2; 5; 0; 0; 2; 5; 0]%Q) 4 1
           None None None None "above" [(1, 4); (7, 8)] [5%Q; 5%Q]
           [(2, 2); (8, 8)]).
  - vm_compute. reflexivity.
  - discriminate.
Defined.

(** C4. For every one-dimensional sample sequence, threshold and mode in
    {above, below}, [find_threshold_crossing_events] returns runs such that
    every index inside a run satisfies the strict predicate ([x[i] >
    threshold] for above, [x[i] < threshold] for below), the index just
    before and just after each run, when in range, does not, each run stops
    before the next one starts, and the start indices strictly increase. *)
Theorem find_crossing_runs_exact_and_ordered
    (x : list Q) (threshold : Q) (mode : string) :
  supported mode ->
  exists runs peaks,
    find_threshold_crossing_events (Arr1 x) threshold mode = Ok (runs, peaks) /\
    Forall (crossing_run mode threshold x) runs /\
    StronglySorted before runs /\
    StronglySorted starts_before runs.
Proof.
  intros Hm. rewrite find_crossing_eq by assumption.
  eexists _, _. split; [reflexivity|].
  pose proof (groups_exact (mode_cond mode threshold) x) as Hex.
  pose proof (groups_sorted (mode_cond mode threshold) x) as Hso.
  repeat split.
  - eapply Forall_impl; [|exact Hex]. intros r. now apply exact_run_crossing.
  - assumption.
  - eapply sorted_starts; eassumption.
Qed.

Lemma find_crossing_runs_exact_and_ordered_witness :
  supported "below" /\
  exists runs peaks,
    find_threshold_crossing_events
      (Arr1 [0; 2; 5; 2; 0; 0; 5; 0]%Q) 1 "below" = Ok (runs, peaks) /\
    Forall (crossing_run "below" 1 [0; 2; 5; 2; 0; 0; 5; 0]%Q) runs /\
    StronglySorted before runs /\
    StronglySorted starts_before runs.
Proof.
  split; [right; reflexivity|].
  apply (find_crossing_runs_exact_and_ordered
           [0; 2; 5; 2; 0; 0; 5; 0]%Q 1 "below").
  right; reflexivity.
Defined.

(** C5. On [x = [5, 0, 2, 2, 2, 0]] with thresholds 4 and 1, [ds = 1] and
    [minLength = 3] in mode above, the only primary run [(0, 0)] lies in the
    secondary run [(0, 0)], of duration 1; the [minLength] criterion is
    evaluated on the secondary run it was paired with, [(2, 4)] of
    duration 3, so the run is kept and the window [(2, 4)] is returned. *)
Theorem min_length_uses_paired_run :
  find_threshold_crossing_events (Arr1 [5; 0; 2; 2; 2; 0]%Q) 4 "above"
  = Ok ([(0, 0)], [5%Q]) /\
  find_threshold_crossing_events (Arr1 [5; 0; 2; 2; 2; 0]%Q) 1 "above"
  = Ok ([(0, 0); (2, 4)], [5%Q; 2%Q]) /\
  durations [(0, 0); (2, 4)] (Some 1%Q) = Ok [1%Q; 3%Q] /\
  get_events_boundaries (mk_ndarray [6%nat] [5; 0; 2; 2; 2; 0]%Q) 4 1
    None (Some 3%Q) None (Some 1%Q) "above"
  = Ok ([(2, 4)], [2%Q], [(0, 0)]) /\
  ~ contains (2, 4) (0, 0).
Proof.
  repeat split; try (vm_compute; reflexivity).
  intros [Hs _]. simpl in Hs. lia.
Qed.

(** C6. For every one-dimensional sample sequence and threshold, in mode
    above and in mode below, [find_threshold_crossing_events] reports one
    peak per run, in run order, and the peak of a run is the maximum sample
    over the run's inclusive span: it is attained at a position of the span
    and no sample of the span exceeds it. *)
Theorem find_crossing_peak_is_maximum
    (x : list Q) (threshold : Q) (mode : string) :
  supported mode ->
  exists runs peaks,
    find_threshold_crossing_events (Arr1 x) threshold mode = Ok (runs, peaks) /\
    Forall2 (peak_of x) runs peaks.
Proof.
  intros Hm. rewrite find_crossing_eq by assumption.
  eexists _, _. split; [reflexivity|]. apply groups_peaks.
Qed.

Lemma find_crossing_peak_is_maximum_witness :
  supported "below" /\
  exists runs peaks,
    find_threshold_crossing_events
      (Arr1 [0; 3; 1; 2; 5]%Q) 4 "below" = Ok (runs, peaks) /\
    Forall2 (peak_of [0; 3; 1; 2; 5]%Q) runs peaks.
Proof.
  split; [right; reflexivity|].
  apply (find_crossing_peak_is_maximum [0; 3; 1; 2; 5]%Q 4 "below").
  right; reflexivity.
Defined.

(** In mode below the reported peak of the run [0 .. 3] of
    [[0, 3, 1, 2, 5]] under threshold 4 is 3, the maximum, not the
    minimum 0. *)
Example peak_below_is_max :
  find_threshold_crossing_events (Arr1 [0; 3; 1; 2; 5]%Q) 4 "below"
  = Ok ([(0, 3)], [3%Q]).
Proof. vm_compute. reflexivity. Qed.

(** C7. For every non-empty position sequence, [get_contiguous_segments]
    in memory with [step] unspecified takes the median of the consecutive
    differences as step, breaks between positions [i] and [i+1] exactly
    when [positions[i+1] - positions[i] >= 2*step], and returns, for every
    maximal span between breaks, the pair of the positions at its two ends;
    on [[0, 1, 2, 5, 6, 10]] the step is 1 and the segments are
    [(0, 2)], [(5, 6)] and [(10, 10)]. On the empty sequence, which has no
    span, it raises [IndexError] instead of returning no segment. *)
Theorem contiguous_segments_by_median_step (data : list Q) (sort : bool) :
  get_contiguous_segments [] None sort true = Raise IndexError /\
  (data <> [] ->
   exists breaks segs,
     get_contiguous_segments data None sort true = Ok segs /\
     StronglySorted Z.lt breaks /\
     (forall i, In i breaks <-> is_break (Py.median (Py.diff data)) data i) /\
     Forall2 (segment_at data) (spans (Py.len data) breaks) segs) /\
  Py.median (Py.diff [0; 1; 2; 5; 6; 10]%Q) = Some 1%Q /\
  get_contiguous_segments [0; 1; 2; 5; 6; 10]%Q None sort true
  = Ok [(0, 2); (5, 6); (10, 10)]%Q.
Proof.
  split; [reflexivity|]. split; [|split; reflexivity].
  intros Hne. exact (contiguous_in_memory_spec data None Hne).
Qed.

Lemma contiguous_segments_by_median_step_witness :
  exists breaks segs,
    get_contiguous_segments [3; 4; 7; 8; 9; 20]%Q None false true = Ok segs /\
    StronglySorted Z.lt breaks /\
    (forall i, In i breaks <->
       is_break (Py.median (Py.diff [3; 4; 7; 8; 9; 20]%Q))
         [3; 4; 7; 8; 9; 20]%Q i) /\
    Forall2 (segment_at [3; 4; 7; 8; 9; 20]%Q)
      (spans (Py.len [3; 4; 7; 8; 9; 20]%Q) breaks) segs.
Proof.
  apply (proj1 (proj2 (contiguous_segments_by_median_step
                         [3; 4; 7; 8; 9; 20]%Q false))).
  discriminate.
Defined.

(** C8. On an empty input, [find_threshold_crossing_events] returns empty
    runs and peaks and [get_events_boundaries] returns three empty
    sequences, in both modes, and [find_threshold_crossing_events] returns
    empty runs and peaks whenever no sample satisfies the predicate;
    [get_contiguous_segments] returns an empty sequence in its generator
    branch, but its default in-memory branch indexes position 0 of the
    empty input and raises [IndexError]. *)
Theorem empty_input_results :
  (forall step sort, get_contiguous_segments [] step sort true = Raise IndexError) /\
  (forall step sort, get_contiguous_segments [] step sort false = Ok []) /\
  (forall threshold,
     find_threshold_crossing_events (Arr1 []) threshold "above" = Ok ([], []) /\
     find_threshold_crossing_events (Arr1 []) threshold "below" = Ok ([], [])) /\
  (forall P S mtl ml xl ds,
     get_events_boundaries (mk_ndarray [0%nat] []) P S mtl ml xl ds "above"
     = Ok ([], [], []) /\
     get_events_boundaries (mk_ndarray [0%nat] []) P S mtl ml xl ds "below"
     = Ok ([], [], [])) /\
  (forall x threshold mode,
     supported mode ->
     (forall v, In v x -> ~ crosses mode threshold v) ->
     find_threshold_crossing_events (Arr1 x) threshold mode = Ok ([], [])).
Proof.
  split; [|split; [|split; [|split]]].
  - intros [s|] sort; reflexivity.
  - intros step [|]; reflexivity.
  - intros threshold. split; reflexivity.
  - intros P S [t|] ml xl ds; split; reflexivity.
  - apply find_crossing_none.
Qed.

Lemma empty_input_results_witness :
  find_threshold_crossing_events (Arr1 [1; 4; 2]%Q) 4 "above" = Ok ([], []).
Proof.
  apply (proj2 (proj2 (proj2 (proj2 empty_input_results)))).
  - left. reflexivity.
  - intros v Hv [[_ Hlt]|[Hmode _]]; [|discriminate Hmode].
    simpl in Hv. destruct Hv as [<-|[<-|[<-|[]]]]; vm_compute in Hlt;
      discriminate Hlt.
Defined.

(** C9. [get_events_boundaries] raises, and so returns nothing, (1) when
    [mode] is neither "above" nor "below" ([NotImplementedError], or the
    [TypeError] of a multidimensional input, which is tested first), (2)
    when [x] has more than one dimension after squeezing ([TypeError]), and
    (3) when the secondary threshold lies on the wrong side of the primary
    one for the mode while at least one primary run survives the
    [minThresholdLength] criterion ([AssertionError]). *)
Theorem get_events_boundaries_usage_errors x P S mtl ml xl ds mode :
  (~ supported mode ->
   get_events_boundaries x P S mtl ml xl ds mode
   = Raise (if (1 <? ndim (squeeze x))%nat then TypeError
            else NotImplementedError)) /\
  ((1 < ndim (squeeze x))%nat ->
   get_events_boundaries x P S mtl ml xl ds mode = Raise TypeError) /\
  (forall events,
     (ndim (squeeze x) <= 1)%nat ->
     primary_events (as_array (squeeze x)) P mtl ds mode = Ok events ->
     events <> [] ->
     violates mode P S ->
     get_events_boundaries x P S mtl ml xl ds mode = Raise AssertionError).
Proof.
  rewrite get_events_boundaries_staged. unfold staged_boundaries.
  repeat split.
  - intros Hm. destruct (1 <? ndim (squeeze x))%nat; [reflexivity|].
    unfold primary_events. now rewrite find_crossing_unsupported.
  - intros Hd. apply Nat.ltb_lt in Hd. now rewrite Hd.
  - intros events Hd Hev Hne Hv.
    destruct (Nat.ltb_spec 1 (ndim (squeeze x))); [lia|].
    rewrite Hev. cbn [bind].
    destruct events as [|r events]; [congruence|].
    replace (Py.len (r :: events) =? 0) with false
      by (symmetry; apply Z.eqb_neq; unfold Py.len; simpl; lia).
    unfold candidate_windows. now rewrite paired_windows_violation.
Qed.

Lemma get_events_boundaries_usage_errors_witness :
  get_events_boundaries (mk_ndarray [3%nat] [0; 5; 0]%Q) 4 1
    None None None None "beside" = Raise NotImplementedError /\
  get_events_boundaries (mk_ndarray [2%nat; 2%nat] [0; 5; 0; 5]%Q) 4 1
    None None None None "above" = Raise TypeError /\
  get_events_boundaries (mk_ndarray [3%nat] [0; 5; 0]%Q) 4 6
    None None None None "above" = Raise AssertionError /\
  get_events_boundaries (mk_ndarray [3%nat] [7; 3; 7]%Q) 4 1
    (Some 1%Q) None None (Some 1%Q) "below" = Raise AssertionError.
Proof.
  split; [|split; [|split]].
  - apply (proj1 (get_events_boundaries_usage_errors
                    (mk_ndarray [3%nat] [0; 5; 0]%Q) 4 1
                    None None None None "beside")).
    intros [H|H]; discriminate H.
  - apply (proj1 (proj2 (get_events_boundaries_usage_errors
                    (mk_ndarray [2%nat; 2%nat] [0; 5; 0; 5]%Q) 4 1
                    None None None None "above"))).
    cbv. lia.
  - apply (proj2 (proj2 (get_events_boundaries_usage_errors
                    (mk_ndarray [3%nat] [0; 5; 0]%Q) 4 6
                    None None None None "above")) [(1, 1)]).
    + cbv. lia.
    + vm_compute. reflexivity.
    + discriminate.
    + left. split; [reflexivity|]. reflexivity.
  - apply (proj2 (proj2 (get_events_boundaries_usage_errors
                    (mk_ndarray [3%nat] [7; 3; 7]%Q) 4 1
                    (Some 1%Q) None None (Some 1%Q) "below")) [(1, 1)]).
    + cbv. lia.
    + vm_compute. reflexivity.
    + discriminate.
    + right. split; [reflexivity|]. reflexivity.
Defined.

(** C10. Whenever [get_events_boundaries] returns, it returns three
    sequences [bounds], [maxes] and [events] of one and the same length,
    the empty result included: every retained window comes with exactly one
    peak and exactly one primary run. And it does return whenever the input
    is one-dimensional after squeezing, the thresholds are on the permitted
    sides for the mode, and a sample step is given with the duration
    criteria. *)
Theorem get_events_boundaries_equal_lengths x P S mtl ml xl ds mode :
  (forall bounds maxes events,
     get_events_boundaries x P S mtl ml xl ds mode = Ok (bounds, maxes, events) ->
     List.length bounds = List.length maxes /\
     List.length maxes = List.length events) /\
  (ndim (squeeze x) = 1%nat -> ordered mode P S -> step_given mtl ml xl ds ->
   exists bounds maxes events,
     get_events_boundaries x P S mtl ml xl ds mode = Ok (bounds, maxes, events)).
Proof.
  split.
  - intros bounds maxes events. rewrite get_events_boundaries_staged.
    apply (staged_boundaries_aligned x P S mtl ml xl ds mode
             (bounds, maxes, events)).
  - intros Hdim Hord Hstep.
    destruct (get_events_boundaries_returns x P S mtl ml xl ds mode
                Hdim Hord Hstep) as ([[b m] e] & H).
    eauto.
Qed.

Lemma get_events_boundaries_equal_lengths_witness :
  (List.length [(1, 4)] = List.length [5%Q] /\
   List.length [5%Q] = List.length [(2, 2)]) /\
  exists bounds maxes events,
    get_events_boundaries
      (mk_ndarray [1%nat; 8%nat] [0; 2; 5; 2; 5; 0; 5; 0]%Q) 4 1
      (Some 1%Q) (Some 2%Q) (Some 6%Q) (Some 1%Q) "above"
    = Ok (bounds, maxes, events).
Proof.
  split.
  - apply (proj1 (get_events_boundaries_equal_lengths
                    (mk_ndarray [1%nat; 8%nat] [0; 2; 5; 2; 5; 0; 5; 0]%Q) 4 1
                    (Some 1%Q) (Some 2%Q) (Some 6%Q) (Some 1%Q) "above")).
    vm_compute. reflexivity.
  - apply (proj2 (get_events_boundaries_equal_lengths
                    (mk_ndarray [1%nat; 8%nat] [0; 2; 5; 2; 5; 0; 5; 0]%Q) 4 1
                    (Some 1%Q) (Some 2%Q) (Some 6%Q) (Some 1%Q) "above")).
    + reflexivity.
    + left. split; [reflexivity|]. discriminate.
    + left. discriminate.
Defined.

(* ================================================================= *)
(** * Further properties *)

(** ** find_threshold_crossing_events: every crossing is reported *)

Lemma sorted_runs_disjoint (runs : list run) :
  StronglySorted before runs ->
  Forall (fun r => fst r <= snd r) runs ->
  forall r1 r2 j,
    In r1 runs -> In r2 runs ->
    fst r1 <= j <= snd r1 -> fst r2 <= j <= snd r2 -> r1 = r2.
Proof.
  induction 1 as [|r runs Hs IH Hr]; intros Hle r1 r2 j H1 H2 Hj1 Hj2;
    [destruct H1|].
  pose proof (proj1 (Forall_forall _ _) Hr) as Hall. unfold before in Hall.
  pose proof (proj1 (Forall_forall _ _) Hle) as Hle'.
  inversion Hle; subst.
  destruct H1 as [<-|H1], H2 as [<-|H2]; auto.
  - specialize (Hall r2 H2). lia.
  - specialize (Hall r1 H1). lia.
  - eapply IH; eassumption.
Qed.

(** X1. In a supported mode, every position of a one-dimensional [x] whose
    sample satisfies the strict predicate lies in one of the returned runs,
    and in only one. *)
Theorem find_crossing_runs_cover
    (x : list Q) (threshold : Q) (mode : string) :
  supported mode ->
  exists runs peaks,
    find_threshold_crossing_events (Arr1 x) threshold mode = Ok (runs, peaks) /\
    forall j v,
      sample_at x j = Some v -> crosses mode threshold v ->
      exists r,
        In r runs /\ fst r <= j <= snd r /\
        forall r', In r' runs -> fst r' <= j <= snd r' -> r' = r.
Proof.
  intros Hm. rewrite find_crossing_eq by assumption.
  eexists _, _. split; [reflexivity|]. intros j v Hv Hc.
  unfold sample_at in Hv. destruct (Z.ltb_spec j 0); [discriminate|].
  apply (mode_cond_crosses _ _ _ Hm) in Hc.
  destruct (blocks_events_cover 0 _ _
              (groupby_blocks (indicator (mode_cond mode threshold) x) 0)
              (Z.to_nat j) 1) as (s & e & Hin & Hse).
  { unfold indicator. rewrite nth_error_map, Hv. simpl. now rewrite Hc. }
  { reflexivity. }
  exists (s, e). split; [exact Hin|]. split; [simpl; lia|].
  intros r' Hr' Hj'.
  apply (sorted_runs_disjoint _ (groups_sorted (mode_cond mode threshold) x))
    with (j := j); auto; [|simpl; lia].
  eapply Forall_impl; [|apply (groups_exact (mode_cond mode threshold) x)].
  intros [s' e'] (Hle & _). simpl. lia.
Qed.

Lemma find_crossing_runs_cover_witness :
  exists runs peaks,
    find_threshold_crossing_events (Arr1 [0; 2; 5; 2; 0; 0; 5; 0]%Q) 1 "above"
    = Ok (runs, peaks) /\
    forall j v,
      sample_at [0; 2; 5; 2; 0; 0; 5; 0]%Q j = Some v -> crosses "above" 1 v ->
      exists r,
        In r runs /\ fst r <= j <= snd r /\
        forall r', In r' runs -> fst r' <= j <= snd r' -> r' = r.
Proof.
  apply (find_crossing_runs_cover [0; 2; 5; 2; 0; 0; 5; 0]%Q 1 "above").
  left. reflexivity.
Defined.

(** ** get_events_boundaries: what the returned rows are *)

Lemma find_crossing_ok (a : array Q) (threshold : Q) (mode : string) r :
  find_threshold_crossing_events a threshold mode = Ok r ->
  supported mode /\ exists l, a = Arr1 l.
Proof.
  unfold find_threshold_crossing_events, supported. intros H.
  destruct (String.eqb_spec mode "below") as [->|Hb].
  - split; [now right|]. destruct a; [discriminate|eauto].
  - destruct (String.eqb_spec mode "above") as [->|Ha]; [|discriminate].
    split; [now left|]. destruct a; [discriminate|eauto].
Qed.

Lemma index_position {A : Type} (l : list A) (i : Z) (a : A) :
  Py.index l i = Ok a ->
  nth_error l (Z.to_nat (if i <? 0 then i + Py.len l else i)) = Some a.
Proof.
  unfold Py.index.
  destruct ((0 <=? _) && (_ <? Py.len l)); [|discriminate].
  destruct (nth_error l _); [|discriminate]. now intros [= ->].
Qed.

Lemma take_incl {A : Type} (l : list A) (idx : list Z) (r : list A) :
  Py.take l idx = Ok r -> incl r l.
Proof.
  intros H. apply mapM_Forall2 in H.
  induction H as [|i a idx r Hi _ IH]; intros b Hb; [destruct Hb|].
  destruct Hb as [<-|Hb]; [|auto].
  apply index_position in Hi. eapply nth_error_In; eassumption.
Qed.

Lemma Forall2_nth {A B : Type} (R : A -> B -> Prop) (l1 : list A) (l2 : list B) :
  Forall2 R l1 l2 ->
  forall j a b, nth_error l1 j = Some a -> nth_error l2 j = Some b -> R a b.
Proof.
  induction 1 as [|x y l1 l2 Hxy _ IH]; intros [|j] a b Ha Hb;
    simpl in *; try discriminate.
  - congruence.
  - eauto.
Qed.

Lemma take_parallel {A B : Type} (R : A -> B -> Prop)
    (l1 : list A) (l2 : list B) (idx : list Z) r1 r2 :
  Forall2 R l1 l2 ->
  Py.take l1 idx = Ok r1 -> Py.take l2 idx = Ok r2 -> Forall2 R r1 r2.
Proof.
  intros HR H1 H2.
  pose proof (Forall2_length HR) as Hlen.
  apply mapM_Forall2 in H1, H2. revert r2 H2.
  induction H1 as [|i a idx r1 Hi _ IH]; intros r2 H2; inversion H2; subst;
    constructor; auto.
  match goal with H : Py.index l2 i = Ok _ |- _ => apply index_position in H;
    rename H into Hb end.
  apply index_position in Hi. unfold Py.len in *. rewrite <- Hlen in Hb.
  eapply Forall2_nth; eassumption.
Qed.

Lemma compress_Forall2 {A B : Type} (R : A -> B -> Prop) (keep : list bool) :
  forall l1 l2, Forall2 R l1 l2 ->
    Forall2 R (Py.compress keep l1) (Py.compress keep l2).
Proof.
  induction keep as [|k keep IH]; intros l1 l2 H; destruct H; simpl;
    try constructor.
  destruct k; [constructor|]; auto.
Qed.

Lemma primary_events_incl (x : array Q) P mtl ds mode ev :
  primary_events x P mtl ds mode = Ok ev ->
  exists l,
    x = Arr1 l /\ supported mode /\
    incl ev (events_of (groups_of (mode_cond mode P) l)).
Proof.
  unfold primary_events. intros H. bind_ok H.
  destruct (find_crossing_ok _ _ _ _ E) as (Hm & l & ->).
  rewrite find_crossing_eq in E by assumption. inversion E; subst. clear E.
  exists l. split; [reflexivity|]. split; [assumption|].
  destruct mtl as [t|]; [|inversion H; apply incl_refl].
  destruct (0 <? Py.len _); [|inversion H; apply incl_refl].
  bind_ok H. inversion H; subst. intros r. apply compress_incl.
Qed.

Lemma paired_windows_rows (l : list Q) (ev : list run) P S mode b m :
  paired_windows (Arr1 l) ev P S mode = Ok (b, m) ->
  incl b (events_of (groups_of (mode_cond mode S) l)) /\
  Forall2 (peak_of l) b m.
Proof.
  unfold paired_windows. intros H.
  bind_ok H. bind_ok H. destruct a0 as [bounds broader].
  destruct (find_crossing_ok _ _ _ _ E0) as (Hm & _).
  rewrite find_crossing_eq in E0 by assumption. inversion E0; subst. clear E0.
  bind_ok H. bind_ok H. bind_ok H. inversion H; subst. split.
  - eapply take_incl; eassumption.
  - eapply take_parallel; [apply groups_peaks|eassumption|eassumption].
Qed.

Lemma length_filter_rows (R : run -> Q -> Prop) keep limit ds b m e b' m' e' :
  length_filter keep limit ds (b, m, e) = Ok (b', m', e') ->
  Forall2 R b m -> Forall2 R b' m'.
Proof.
  unfold length_filter. destruct limit as [t|]; [|now intros [= <- <- <-]].
  destruct (0 <? Py.len e); [|now intros [= <- <- <-]].
  intros H HR. bind_ok H. inversion H; subst. now apply compress_Forall2.
Qed.

(** The rows [get_events_boundaries] returns are runs of [x], with their
    maxima. *)
Lemma boundaries_rows_are_runs
    x P S mtl ml xl ds mode bounds maxes events :
  get_events_boundaries x P S mtl ml xl ds mode = Ok (bounds, maxes, events) ->
  Forall (crossing_run mode S (flat x)) bounds /\
  Forall (crossing_run mode P (flat x)) events /\
  Forall2 (peak_of (flat x)) bounds maxes.
Proof.
  rewrite get_events_boundaries_staged. unfold staged_boundaries. intros H.
  destruct (1 <? ndim (squeeze x))%nat; [discriminate|].
  bind_ok H. rename a into ev, E into Hev.
  destruct (Py.len ev =? 0);
    [inversion H; subst; repeat split; constructor|].
  bind_ok H. destruct a as [[cb cm] ce].
  destruct (Py.len (snd (cb, cm, ce)) =? 0);
    [inversion H; subst; repeat split; constructor|].
  destruct (primary_events_incl _ _ _ _ _ _ Hev) as (l & Hl & Hm & Hincl).
  assert (l = flat x) as ->.
  { unfold as_array in Hl. simpl in Hl.
    destruct (filter _ (shape x)); [discriminate|]. now inversion Hl. }
  rewrite Hl in E. unfold candidate_windows in E.
  bind_ok E. destruct a as [b0 m0]. bind_ok E. destruct a as [[b1 m1] e1].
  destruct (paired_windows_rows _ _ _ _ _ _ _ E0) as [Hb0 Hpk0].
  pose proof (length_filter_rows _ _ _ _ _ _ _ _ _ _ E1 Hpk0) as Hpk1.
  pose proof (length_filter_rows _ _ _ _ _ _ _ _ _ _ E Hpk1) as Hpk2.
  destruct (length_filter_incl _ _ _ _ _ _ _ _ _ E1) as [Hb1 He1].
  destruct (length_filter_incl _ _ _ _ _ _ _ _ _ E) as [Hb2 He2].
  destruct (remove_repeats_spec _ _ _ _ _ _ H)
    as (positions & _ & _ & _ & Hrows & Hmx & Hevs).
  assert (incl bounds cb) as Hbounds.
  { apply (Forall2_nth_incl cb positions).
    eapply Forall2_impl; [|exact Hrows]. now intros i w [Hw _]. }
  pose proof (Forall2_nth_incl ce positions events Hevs) as Hevents.
  repeat split.
  - apply Forall_forall. intros w Hw.
    apply exact_run_crossing; [assumption|].
    apply (proj1 (Forall_forall _ _) (groups_exact (mode_cond mode S) (flat x))).
    auto.
  - apply Forall_forall. intros r Hr.
    apply exact_run_crossing; [assumption|].
    apply (proj1 (Forall_forall _ _) (groups_exact (mode_cond mode P) (flat x))).
    auto.
  - clear - Hrows Hmx Hpk2.
    revert maxes Hmx.
    induction Hrows as [|i w positions bounds [Hw _] _ IH]; intros maxes Hmx;
      inversion Hmx; subst; constructor; auto.
    eapply Forall2_nth; eassumption.
Qed.

(** X2. Whatever [get_events_boundaries] returns, every returned window is
    one of the maximal runs of [x] strictly beyond the secondary threshold,
    every returned event is one of the maximal runs strictly beyond the
    primary threshold, and every returned maximum is the maximum of [x]
    over the window in the same row. *)
Theorem get_events_boundaries_rows_are_runs
    x P S mtl ml xl ds mode bounds maxes events :
  get_events_boundaries x P S mtl ml xl ds mode = Ok (bounds, maxes, events) ->
  Forall (crossing_run mode S (flat x)) bounds /\
  Forall (crossing_run mode P (flat x)) events /\
  Forall2 (peak_of (flat x)) bounds maxes.
Proof. apply boundaries_rows_are_runs. Qed.

Lemma get_events_boundaries_rows_are_runs_witness :
  Forall (crossing_run "above" 1 [0; 2; 5; 2; 5; 0; 0; 2; 5; 0]%Q)
    [(1, 4); (7, 8)] /\
  Forall (crossing_run "above" 4 [0; 2; 5; 2; 5; 0; 0; 2; 5; 0]%Q)
    [(2, 2); (8, 8)] /\
  Forall2 (peak_of [0; 2; 5; 2; 5; 0; 0; 2; 5; 0]%Q)
    [(1, 4); (7, 8)] [5%Q; 5%Q].
Proof.
  apply (get_events_boundaries_rows_are_runs
           (mk_ndarray [10%nat] [0; 2; 5; 2; 5; 0; 0; 2; 5; 0]%Q) 4 1
           None None None None "above").
  vm_compute. reflexivity.
Defined.

(** X3. Whatever [get_events_boundaries] returns respects the three
    duration criteria, each on its own rows: every returned primary run
    lasts at least [minThresholdLength], every returned window lasts at
    least [minLength] and at most [maxLength], a run of [n] samples lasting
    [n * ds]. *)
Theorem get_events_boundaries_respects_limits
    x P S mtl ml xl d mode bounds maxes events :
  get_events_boundaries x P S mtl ml xl (Some d) mode
  = Ok (bounds, maxes, events) ->
  (forall t, mtl = Some t -> Forall (fun r => (t <= duration d r)%Q) events) /\
  (forall t, ml = Some t -> Forall (fun w => (t <= duration d w)%Q) bounds) /\
  (forall t, xl = Some t -> Forall (fun w => (duration d w <= t)%Q) bounds).
Proof. apply returned_durations_within_limits. Qed.

Lemma get_events_boundaries_respects_limits_witness :
  (forall t, Some 1%Q = Some t ->
     Forall (fun r => (t <= duration 1 r)%Q) [(2, 2)]) /\
  (forall t, Some 2%Q = Some t ->
     Forall (fun w => (t <= duration 1 w)%Q) [(1, 4)]) /\
  (forall t, Some 6%Q = Some t ->
     Forall (fun w => (duration 1 w <= t)%Q) [(1, 4)]).
Proof.
  apply (get_events_boundaries_respects_limits
           (mk_ndarray [1%nat; 8%nat] [0; 2; 5; 2; 5; 0; 5; 0]%Q) 4 1
           (Some 1%Q) (Some 2%Q) (Some 6%Q) 1 "above" [(1, 4)] [5%Q] [(2, 2)]).
  vm_compute. reflexivity.
Defined.

(** X4. An input all of whose axes have length one, a single sample among
    them, squeezes to a zero-dimensional array: in a supported mode
    [get_events_boundaries] raises [TypeError] on it, whatever the
    thresholds and criteria. *)
Theorem get_events_boundaries_single_sample x P S mtl ml xl ds mode :
  Forall (fun d => d = 1%nat) (shape x) ->
  supported mode ->
  get_events_boundaries x P S mtl ml xl ds mode = Raise TypeError.
Proof.
  intros Hone Hm.
  assert (shape (squeeze x) = []) as Hs.
  { unfold squeeze. simpl. induction Hone as [|d ds' Hd _ IH]; [reflexivity|].
    simpl. subst d. exact IH. }
  unfold get_events_boundaries, ndim, as_array. rewrite Hs. simpl.
  unfold find_threshold_crossing_events.
  destruct Hm as [-> | ->]; reflexivity.
Qed.

Lemma get_events_boundaries_single_sample_witness :
  get_events_boundaries (mk_ndarray [1%nat] [5%Q]) 4 1
    None None None None "above" = Raise TypeError.
Proof.
  apply get_events_boundaries_single_sample.
  - repeat constructor.
  - left. reflexivity.
Defined.

(** ** get_contiguous_segments: a given step, and the generator branch *)

(** X5. With a step given, [get_contiguous_segments] in memory breaks a
    non-empty sequence exactly between the positions whose gap is at least
    twice that step, whatever [sort] is, and returns one segment more than
    there are breaks: the positions at the two ends of every span between
    breaks. *)
Theorem contiguous_segments_with_step (data : list Q) (s : Q) (sort : bool) :
  data <> [] ->
  exists breaks segs,
    get_contiguous_segments data (Some s) sort true = Ok segs /\
    StronglySorted Z.lt breaks /\
    (forall i, In i breaks <-> is_break (Some s) data i) /\
    Forall2 (segment_at data) (spans (Py.len data) breaks) segs /\
    List.length segs = S (List.length breaks).
Proof.
  intros Hne.
  destruct (contiguous_in_memory_spec data (Some s) Hne)
    as (breaks & segs & Hrun & Hsorted & Hbreaks & Hsegs).
  exists breaks, segs. repeat split; try assumption; try apply Hbreaks.
  apply Forall2_length in Hsegs. rewrite <- Hsegs. unfold spans.
  rewrite length_combine, length_app. cbn [List.length].
  rewrite length_map. lia.
Qed.

Lemma contiguous_segments_with_step_witness :
  exists breaks segs,
    get_contiguous_segments [0; 2; 4; 9; 11]%Q (Some 2%Q) true true = Ok segs /\
    StronglySorted Z.lt breaks /\
    (forall i, In i breaks <-> is_break (Some 2%Q) [0; 2; 4; 9; 11]%Q i) /\
    Forall2 (segment_at [0; 2; 4; 9; 11]%Q)
      (spans (Py.len [0; 2; 4; 9; 11]%Q) breaks) segs /\
    List.length segs = S (List.length breaks).
Proof.
  apply (contiguous_segments_with_step [0; 2; 4; 9; 11]%Q 2 true).
  discriminate.
Defined.

Lemma groupby_unit_chunks (data : list Q) :
  forall i,
    let G := Py.groupby Qeq_bool (fun ix : Z * Q => (inject_Z (fst ix) - snd ix)%Q)
               (Py.enumerate_from i data) in
    map (fun kg => map snd (snd kg)) G = unit_chunks data /\
    Forall (fun kg => snd kg <> []) G /\
    match G, data with
    | (k, g) :: _, a :: _ => (k == inject_Z i - a)%Q
    | [], [] => True
    | _, _ => False
    end.
Proof.
  induction data as [|a data IH]; intros i; [simpl; auto|].
  specialize (IH (i + 1)). cbn zeta in IH. cbn zeta.
  cbn [Py.enumerate_from Py.groupby unit_chunks fst snd].
  destruct (Py.groupby Qeq_bool _ (Py.enumerate_from (i + 1) data))
    as [|[k g] G] eqn:EG.
  - destruct IH as (Hc & _ & Hk). destruct data; [|destruct Hk].
    simpl. split; [reflexivity|].
    split; [repeat constructor; discriminate|reflexivity].
  - destruct IH as (Hc & Hne & Hk). destruct data as [|b data]; [destruct Hk|].
    inversion Hne as [|? ? Hg _]; subst. simpl in Hg.
    cbn [map snd] in Hc. rewrite <- Hc.
    destruct g as [|[j v] g]; [congruence|].
    assert (Qeq_bool (inject_Z i - a) k = Qeq_bool (v - a) 1) as Hkey.
    { assert (v = b) as ->.
      { cbn [unit_chunks] in Hc.
        destruct (unit_chunks data) as [|[|b' c] rest];
          try (simpl in Hc; now inversion Hc).
        destruct (Qeq_bool (b' - b) 1); simpl in Hc; now inversion Hc. }
      destruct (Qeq_bool (inject_Z i - a) k) eqn:E1;
        destruct (Qeq_bool (b - a) 1) eqn:E2; try reflexivity; exfalso.
      - apply Qeq_bool_iff in E1. apply Qeq_bool_neq in E2. apply E2.
        rewrite Hk in E1. rewrite inject_Z_plus in E1.
        setoid_replace (b - a)%Q
          with ((inject_Z i - a) - (inject_Z i + inject_Z 1 - b) + 1)%Q
          by (unfold inject_Z; ring).
        rewrite <- E1. ring.
      - apply Qeq_bool_iff in E2. apply Qeq_bool_neq in E1. apply E1.
        rewrite Hk, inject_Z_plus.
        setoid_replace (inject_Z i + inject_Z 1 - b)%Q
          with (inject_Z i - a - ((b - a) - 1))%Q by (unfold inject_Z; ring).
        rewrite E2. ring. }
    rewrite Hkey. cbn [map snd].
    destruct (Qeq_bool (v - a) 1) eqn:E; cbn [map snd fst].
    + split; [reflexivity|]. split.
      * constructor; [discriminate|]. now inversion Hne.
      * (* the key of the group is still that of its first item *)
        apply Qeq_bool_iff in Hkey. now rewrite Hkey.
    + split; [reflexivity|]. split; [|reflexivity].
      constructor; [discriminate|assumption].
Qed.

Lemma last_map_nonempty {A B : Type} (f : A -> B) (l : list A) (d : A) (d' : B) :
  l <> [] -> List.last (map f l) d' = f (List.last l d).
Proof.
  induction l as [|a [|b l] IH]; intros Hne; [congruence|reflexivity|].
  change (List.last (map f (a :: b :: l)) d') with (List.last (map f (b :: l)) d').
  change (List.last (a :: b :: l) d) with (List.last (b :: l) d).
  apply IH. discriminate.
Qed.

Lemma unit_chunks_nonempty (data : list Q) :
  Forall (fun c => c <> []) (unit_chunks data).
Proof.
  induction data as [|a data IH]; [constructor|]. simpl.
  destruct (unit_chunks data) as [|[|b c] rest].
  - repeat constructor. discriminate.
  - repeat constructor. discriminate.
  - destruct (Qeq_bool (b - a) 1).
    + constructor; [discriminate|]. now inversion IH.
    + constructor; [discriminate|assumption].
Qed.

Lemma unit_chunks_concat (data : list Q) :
  List.concat (unit_chunks data) = data.
Proof.
  induction data as [|a data IH]; [reflexivity|]. cbn [unit_chunks].
  pose proof (unit_chunks_nonempty data) as Hne.
  destruct (unit_chunks data) as [|[|b c] rest]; cbn [List.concat app] in *.
  - now subst.
  - inversion Hne; congruence.
  - destruct (Qeq_bool (b - a) 1); cbn [List.concat app]; now rewrite <- IH.
Qed.

(** X6. In its generator branch ([in_memory=False])
    [get_contiguous_segments] never raises and takes no account of [step]:
    it cuts the (sorted, if [sort]) positions wherever the next one is not
    exactly one more than the one before, and returns the first and the last
    position of every piece; the pieces are non-empty and, put end to end,
    are the positions. *)
Theorem contiguous_segments_generator_branch
    (data : list Q) (step : option Q) (sort : bool) :
  let positions := if sort then Py.sortQ data else data in
  get_contiguous_segments data step sort false
  = Ok (map ends (unit_chunks positions)) /\
  List.concat (unit_chunks positions) = positions /\
  Forall (fun c => c <> []) (unit_chunks positions).
Proof.
  intros positions.
  split; [|split; [apply unit_chunks_concat|apply unit_chunks_nonempty]].
  unfold get_contiguous_segments, contiguous_out_of_core. fold positions.
  f_equal. unfold Py.enumerate.
  destruct (groupby_unit_chunks positions 0) as (Hc & Hne & _).
  cbn zeta in Hc, Hne. rewrite <- Hc, map_map.
  apply map_ext_Forall.
  eapply Forall_impl; [|exact Hne].
  intros [k g] Hg. simpl in *. unfold segment_of_group, ends.
  destruct g as [|[j v] g]; [congruence|].
  f_equal.
  rewrite (last_map_nonempty snd ((j, v) :: g) (0, v)); [reflexivity|discriminate].
Qed.

(** ** is_odd, pairwise, is_sorted, argsort *)

(** X7. [is_odd] tells the parity of every integer, negative ones
    included: it is true exactly on the numbers [2*k + 1]. *)
Theorem is_odd_parity (n : Z) :
  is_odd n = Z.odd n /\ (is_odd n = true <-> exists k, n = 2 * k + 1).
Proof.
  assert (is_odd n = Z.odd n) as H.
  { unfold is_odd. change 1 with (Z.ones 1) at 1.
    rewrite Z.land_ones by lia. rewrite <- Z.bit0_mod, Z.bit0_odd.
    now destruct (Z.odd n). }
  split; [exact H|]. rewrite H, Z.odd_spec. reflexivity.
Qed.

(** X8. [pairwise] yields one pair fewer than there are items, and its
    [i]-th pair is made of the items [i] and [i+1]; on fewer than two items
    it yields nothing. *)
Theorem pairwise_neighbours {A : Type} (iterable : list A) :
  List.length (pairwise iterable) = (List.length iterable - 1)%nat /\
  forall i,
    nth_error (pairwise iterable) i =
    match nth_error iterable i, nth_error iterable (S i) with
    | Some a, Some b => Some (a, b)
    | _, _ => None
    end.
Proof.
  unfold pairwise. split.
  - rewrite length_combine. destruct iterable; cbn [tl List.length]; lia.
  - induction iterable as [|a [|b l] IH]; intros i.
    + now destruct i.
    + destruct i as [|[|i]]; reflexivity.
    + destruct i as [|i]; [reflexivity|]. exact (IH i).
Qed.

Lemma is_sorted_cons {A : Type} (key : A -> A -> bool) a b l :
  is_sorted key (a :: b :: l) = key a b && is_sorted key (b :: l).
Proof. reflexivity. Qed.

(** [is_sorted] with [<=] as key, against the order predicate. *)
Lemma is_sorted_le_iff (iterable : list Z) :
  is_sorted default_key iterable = true <-> StronglySorted Z.le iterable.
Proof.
  induction iterable as [|a [|b l] IH].
  - split; [constructor|reflexivity].
  - split; [repeat constructor|reflexivity].
  - rewrite is_sorted_cons, andb_true_iff, IH. unfold default_key.
    rewrite Z.leb_le. split.
    + intros [Hab Hs]. constructor; [assumption|].
      inversion Hs as [|? ? Hs' Hall]; subst. constructor; [assumption|].
      eapply Forall_impl; [|exact Hall]. intros c Hc. lia.
    + intros Hs. inversion Hs as [|? ? Hs' Hall]; subst.
      split; [now inversion Hall|assumption].
Qed.

(** X9. With its default key, [is_sorted] is true exactly on the lists in
    non-decreasing order; so it is true on the empty list and on a single
    item. *)
Theorem is_sorted_nondecreasing (iterable : list Z) :
  is_sorted default_key iterable = true <-> StronglySorted Z.le iterable.
Proof. apply is_sorted_le_iff. Qed.

Lemma insert_by_value_perm p l : Permutation (p :: l) (Py.insert_by_value p l).
Proof.
  induction l as [|q l IH]; simpl; [reflexivity|].
  destruct (snd p <=? snd q); [reflexivity|].
  rewrite perm_swap. now constructor.
Qed.

Lemma stable_sort_perm l : Permutation l (Py.stable_sort_by_value l).
Proof.
  induction l as [|p l IH]; simpl; [constructor|].
  rewrite <- insert_by_value_perm. now constructor.
Qed.

Lemma enumerate_from_fst {A : Type} (l : list A) :
  forall k, map fst (Py.enumerate_from k l)
            = map (fun j => k + Z.of_nat j) (seq 0 (List.length l)).
Proof.
  induction l as [|a l IH]; intros k; simpl; [reflexivity|].
  rewrite IH, <- seq_shift, map_map. f_equal; [f_equal; lia|].
  apply map_ext. intros j. lia.
Qed.

Lemma StronglySorted_map_in {A B : Type} (R : A -> A -> Prop) (R' : B -> B -> Prop)
    (f : A -> B) (l : list A) :
  (forall p q, In p l -> In q l -> R p q -> R' (f p) (f q)) ->
  StronglySorted R l -> StronglySorted R' (map f l).
Proof.
  intros Hf Hs. induction Hs as [|p l Hs IH Hp]; simpl; constructor.
  - apply IH. intros; apply Hf; simpl; auto.
  - apply Forall_forall. intros b Hb. apply in_map_iff in Hb as (q & <- & Hq).
    apply Hf; simpl; auto. exact (proj1 (Forall_forall _ _) Hp q Hq).
Qed.

(** The stable sort of the positions of [seq] by the value they hold. *)
Lemma sorted_positions_spec (seq : list Z) :
  Permutation (map fst (Py.stable_sort_by_value (Py.enumerate seq)))
    (map Z.of_nat (List.seq 0 (List.length seq))) /\
  StronglySorted (held_before seq)
    (map fst (Py.stable_sort_by_value (Py.enumerate seq))).
Proof.
  unfold Py.enumerate. split.
  - rewrite <- stable_sort_perm, enumerate_from_fst.
    apply Permutation_refl', map_ext. intros j. lia.
  - apply (StronglySorted_map_in lex_lt);
      [|apply stable_sort_enumerate_sorted].
    intros [i v] [j w] Hp Hq Hlt.
    apply stable_sort_in, enumerate_from_in in Hp, Hq.
    rewrite Z.sub_0_r in Hp, Hq. destruct Hp as [Hi Hv], Hq as [Hj Hw].
    unfold held_before, lex_lt in *. simpl in *.
    exists v, w. repeat split; try assumption; try lia.
Qed.

(** X10. [argsort(seq)] is a rearrangement of the positions [0 .. len-1]
    that puts the values in non-decreasing order and equal values in the
    order of their positions. *)
Theorem argsort_stable_order (seq : list Z) :
  Permutation (argsort seq) (map Z.of_nat (List.seq 0 (List.length seq))) /\
  StronglySorted (held_before seq) (argsort seq).
Proof. exact (sorted_positions_spec seq). Qed.

(** ** linear_merge *)

Lemma merge_loop_eq (value1 : Z) (rest1 : list Z) (value2 : Z) (rest2 : list Z) :
  merge_loop value1 rest1 value2 rest2 =
  if value1 <=? value2 then
    value1 :: match rest1 with
              | [] => value2 :: rest2
              | next1 :: rest1' => merge_loop next1 rest1' value2 rest2
              end
  else
    value2 :: match rest2 with
              | [] => value1 :: rest1
              | next2 :: rest2' => merge_loop value1 rest1 next2 rest2'
              end.
Proof. destruct rest1, rest2; reflexivity. Qed.



Lemma merge_loop_head (value1 : Z) (rest1 : list Z) (value2 : Z) (rest2 : list Z) :
  exists tail,
    merge_loop value1 rest1 value2 rest2
    = (if value1 <=? value2 then value1 else value2) :: tail.
Proof. rewrite merge_loop_eq. destruct (value1 <=? value2); eauto. Qed.

Lemma merge_loop_sorted (rest1 : list Z) :
  forall value1 rest2 value2,
    Sorted Z.le (value1 :: rest1) -> Sorted Z.le (value2 :: rest2) ->
    Sorted Z.le (merge_loop value1 rest1 value2 rest2).
Proof.
  induction rest1 as [|next1 rest1 IH1]; intros value1 rest2;
    induction rest2 as [|next2 rest2 IH2]; intros value2 H1 H2;
    rewrite merge_loop_eq; destruct (Z.leb_spec value1 value2) as [Hle|Hgt].
  - repeat constructor. assumption.
  - repeat constructor. lia.
  - constructor; [assumption|]. constructor. assumption.
  - inversion H2 as [|? ? Hs2 Hh2]; subst. inversion Hh2; subst.
    constructor; [now apply IH2|].
    destruct (merge_loop_head value1 [] next2 rest2) as (tail & ->).
    constructor. destruct (value1 <=? next2); lia.
  - inversion H1 as [|? ? Hs1 Hh1]; subst. inversion Hh1; subst.
    constructor; [now apply IH1|].
    destruct (merge_loop_head next1 rest1 value2 []) as (tail & ->).
    constructor. destruct (next1 <=? value2); lia.
  - constructor; [assumption|]. constructor. lia.
  - inversion H1 as [|? ? Hs1 Hh1]; subst. inversion Hh1; subst.
    constructor; [now apply IH1|].
    destruct (merge_loop_head next1 rest1 value2 (next2 :: rest2)) as (tail & ->).
    constructor. destruct (next1 <=? value2); lia.
  - inversion H2 as [|? ? Hs2 Hh2]; subst. inversion Hh2; subst.
    constructor; [now apply IH2|].
    destruct (merge_loop_head value1 (next1 :: rest1) next2 rest2) as (tail & ->).
    constructor. destruct (value1 <=? next2); lia.
Qed.

(** X12. On two lists in non-decreasing order, what [linear_merge] yields
    is in non-decreasing order, and [is_sorted] says so. *)
Theorem linear_merge_sorted (list1 list2 : list Z) :
  StronglySorted Z.le list1 -> StronglySorted Z.le list2 ->
  StronglySorted Z.le (linear_merge list1 list2) /\
  is_sorted default_key (linear_merge list1 list2) = true.
Proof.
  intros H1 H2.
  assert (StronglySorted Z.le (linear_merge list1 list2)) as H.
  { destruct list1 as [|value1 rest1]; [assumption|].
    destruct list2 as [|value2 rest2]; [assumption|].
    apply Sorted_StronglySorted; [intros a b c; apply Z.le_trans|].
    apply merge_loop_sorted; now apply StronglySorted_Sorted. }
  split; [exact H|]. now apply is_sorted_le_iff.
Qed.

Lemma linear_merge_sorted_witness :
  StronglySorted Z.le (linear_merge [1; 2; 2; 3] [2; 2; 4; 4]) /\
  is_sorted default_key (linear_merge [1; 2; 2; 3] [2; 2; 4; 4]) = true.
Proof.
  apply linear_merge_sorted; repeat constructor; lia.
Defined.

(** The examples of the docstring of [linear_merge]. *)
Example linear_merge_docstring :
  linear_merge [1; 3; 5; 7] [2; 4; 6; 8] = [1; 2; 3; 4; 5; 6; 7; 8] /\
  linear_merge [2; 4; 6; 8] [1; 3; 5; 7] = [1; 2; 3; 4; 5; 6; 7; 8] /\
  linear_merge [1; 2; 2; 3] [2; 2; 4; 4] = [1; 2; 2; 2; 2; 3; 4; 4].
Proof. repeat split; reflexivity. Qed.

(** ** swap_rows, swap_cols *)

Lemma index_in_range_nth {A : Type} (l : list A) (i : Z) :
  in_range (List.length l) i ->
  exists a, Py.index l i = Ok a /\
            nth_error l (position (List.length l) i) = Some a.
Proof.
  intros Hi. destruct (index_in_range l i Hi) as (a & Ha).
  exists a. split; [assumption|]. now apply index_position in Ha.
Qed.

Lemma index_out_of_range {A : Type} (l : list A) (i : Z) :
  ~ in_range (List.length l) i -> Py.index l i = Raise IndexError.
Proof.
  unfold in_range, Py.index, Py.len. intros Hi.
  set (j := if i <? 0 then i + Z.of_nat (List.length l) else i).
  assert (~ 0 <= j < Z.of_nat (List.length l)) as Hj
    by (unfold j; destruct (Z.ltb_spec i 0); lia).
  destruct (Z.leb_spec 0 j); [|reflexivity].
  destruct (Z.ltb_spec j (Z.of_nat (List.length l))); [lia|reflexivity].
Qed.

Lemma setitem_nth {A : Type} (l : list A) (i : Z) (a : A) :
  in_range (List.length l) i ->
  exists l',
    setitem l i a = Ok l' /\ List.length l' = List.length l /\
    forall j, nth_error l' j
              = if Nat.eqb j (position (List.length l) i) then Some a
                else nth_error l j.
Proof.
  unfold in_range, setitem, position, Py.len. intros Hi.
  set (p := if i <? 0 then i + Z.of_nat (List.length l) else i).
  assert (0 <= p < Z.of_nat (List.length l)) as Hp
    by (unfold p; destruct (Z.ltb_spec i 0); lia).
  destruct (Z.leb_spec 0 p); [|lia].
  destruct (Z.ltb_spec p (Z.of_nat (List.length l))); [|lia]. cbn [andb].
  eexists. split; [reflexivity|].
  assert (List.length (firstn (Z.to_nat p) l) = Z.to_nat p) as Hf
    by (rewrite length_firstn; lia).
  split.
  - rewrite length_app, Hf. cbn [List.length]. rewrite length_skipn. lia.
  - intros j. destruct (Nat.eqb_spec j (Z.to_nat p)) as [->|Hne].
    + rewrite nth_error_app2 by lia. rewrite Hf, Nat.sub_diag. reflexivity.
    + destruct (Nat.lt_ge_cases j (Z.to_nat p)) as [Hlt|Hge].
      * rewrite nth_error_app1 by lia. rewrite nth_error_firstn.
        destruct (Nat.ltb_spec j (Z.to_nat p)); [reflexivity|lia].
      * rewrite nth_error_app2 by lia. rewrite Hf.
        destruct (j - Z.to_nat p)%nat as [|k] eqn:Hk; [lia|].
        cbn [nth_error]. rewrite nth_error_skipn. f_equal. lia.
Qed.

Lemma swap_items_exchanges {A : Type} (arr : list A) (frm to : Z) :
  in_range (List.length arr) frm -> in_range (List.length arr) to ->
  exists arr',
    swap_items arr frm to = Ok arr' /\
    exchanged arr arr' (position (List.length arr) frm)
      (position (List.length arr) to).
Proof.
  intros Hf Ht. unfold swap_items.
  destruct (index_in_range_nth arr to Ht) as (at_to & -> & Hto).
  destruct (index_in_range_nth arr frm Hf) as (at_frm & -> & Hfrm).
  cbn [bind].
  destruct (setitem_nth arr frm at_to Hf) as (arr1 & -> & Hlen1 & Hnth1).
  cbn [bind].
  assert (in_range (List.length arr1) to) as Ht1 by now rewrite Hlen1.
  destruct (setitem_nth arr1 to at_frm Ht1) as (arr2 & -> & Hlen2 & Hnth2).
  rewrite Hlen1 in Hnth2.
  exists arr2. split; [reflexivity|].
  set (p := position (List.length arr) frm) in *.
  set (q := position (List.length arr) to) in *.
  unfold exchanged. split; [congruence|]. split; [|split].
  - rewrite Hnth2. destruct (Nat.eqb_spec p q) as [E|E]; [congruence|].
    rewrite Hnth1, Nat.eqb_refl. congruence.
  - rewrite Hnth2, Nat.eqb_refl. congruence.
  - intros j Hp Hq. rewrite Hnth2.
    destruct (Nat.eqb_spec j q); [congruence|].
    rewrite Hnth1. destruct (Nat.eqb_spec j p); [congruence|reflexivity].
Qed.

Lemma swap_items_out_of_range {A : Type} (arr : list A) (frm to : Z) :
  ~ (in_range (List.length arr) frm /\ in_range (List.length arr) to) ->
  swap_items arr frm to = Raise IndexError.
Proof.
  intros Hno. unfold swap_items.
  destruct (Z_le_dec (- Z.of_nat (List.length arr)) to) as [H1|H1];
    [destruct (Z_lt_dec to (Z.of_nat (List.length arr))) as [H2|H2]|].
  - assert (in_range (List.length arr) to) as Ht by (unfold in_range; lia).
    destruct (index_in_range_nth arr to Ht) as (a & -> & _). cbn [bind].
    rewrite index_out_of_range; [reflexivity|]. tauto.
  - rewrite index_out_of_range; [reflexivity|]. unfold in_range. lia.
  - rewrite index_out_of_range; [reflexivity|]. unfold in_range. lia.
Qed.

(** X13. On a one-dimensional array, [swap_rows] and [swap_cols] do the
    same: with both indices in range (negative ones counting from the end)
    the two items are exchanged and nothing else changes; with an index out
    of range they raise [IndexError]. *)
Theorem swap_vector_exchanges {A : Type} (items : list A) (frm to : Z) :
  swap_cols (Vec items) frm to = swap_rows (Vec items) frm to /\
  (in_range (List.length items) frm -> in_range (List.length items) to ->
   exists items',
     swap_rows (Vec items) frm to = Ok (Vec items') /\
     exchanged items items' (position (List.length items) frm)
       (position (List.length items) to)) /\
  (~ (in_range (List.length items) frm /\ in_range (List.length items) to) ->
   swap_rows (Vec items) frm to = Raise IndexError).
Proof.
  split; [reflexivity|]. split.
  - intros Hf Ht.
    destruct (swap_items_exchanges items frm to Hf Ht) as (items' & H & Hex).
    exists items'. simpl. now rewrite H.
  - intros Hno. simpl. now rewrite swap_items_out_of_range.
Qed.

Lemma swap_vector_exchanges_witness :
  (exists items',
     swap_rows (Vec [10; 20; 30; 40]) (-1) 1 = Ok (Vec items') /\
     exchanged [10; 20; 30; 40] items' (position 4 (-1)) (position 4 1)) /\
  swap_rows (Vec [10; 20; 30; 40]) 4 1 = Raise IndexError.
Proof.
  split.
  - apply (proj1 (proj2 (swap_vector_exchanges [10; 20; 30; 40] (-1) 1)));
      unfold in_range; simpl; lia.
  - apply (proj2 (proj2 (swap_vector_exchanges [10; 20; 30; 40] 4 1))).
    unfold in_range. simpl. lia.
Defined.

Lemma in_range_dec (n : nat) (i : Z) : {in_range n i} + {~ in_range n i}.
Proof.
  unfold in_range.
  destruct (Z_le_dec (- Z.of_nat n) i); [|right; lia].
  destruct (Z_lt_dec i (Z.of_nat n)); [left|right]; lia.
Qed.

Lemma swap_items_ok_in_range {A : Type} (arr arr' : list A) (frm to : Z) :
  swap_items arr frm to = Ok arr' ->
  in_range (List.length arr) frm /\ in_range (List.length arr) to.
Proof.
  intros H.
  destruct (in_range_dec (List.length arr) frm) as [Hf|Hf];
    destruct (in_range_dec (List.length arr) to) as [Ht|Ht]; auto;
    rewrite swap_items_out_of_range in H by tauto; discriminate.
Qed.

Lemma swap_items_involutive {A : Type} (arr arr' : list A) (frm to : Z) :
  swap_items arr frm to = Ok arr' -> swap_items arr' frm to = Ok arr.
Proof.
  intros H. destruct (swap_items_ok_in_range _ _ _ _ H) as [Hf Ht].
  destruct (swap_items_exchanges arr frm to Hf Ht) as (arr1 & H1 & Hex1).
  assert (arr1 = arr') as -> by congruence.
  destruct Hex1 as (Hlen & Hp & Hq & Hrest).
  rewrite <- Hlen in Hf, Ht.
  destruct (swap_items_exchanges arr' frm to Hf Ht) as (arr2 & H2 & Hex2).
  rewrite H2. f_equal. destruct Hex2 as (Hlen2 & Hp2 & Hq2 & Hrest2).
  rewrite Hlen in *.
  set (p := position (List.length arr) frm) in *.
  set (q := position (List.length arr) to) in *.
  apply nth_error_ext. intros j.
  destruct (Nat.eq_dec j p) as [->|Hjp]; [congruence|].
  destruct (Nat.eq_dec j q) as [->|Hjq]; [congruence|].
  rewrite Hrest2, Hrest by assumption. reflexivity.
Qed.

Lemma mapM_involutive {A : Type} (f : A -> result A) (l l' : list A) :
  (forall a a', f a = Ok a' -> f a' = Ok a) ->
  mapM f l = Ok l' -> mapM f l' = Ok l.
Proof.
  intros Hf H. apply mapM_Forall2 in H.
  induction H as [|a a' l l' Ha _ IH]; [reflexivity|].
  simpl. now rewrite (Hf _ _ Ha), IH.
Qed.

(** X14. Swapping twice is no swap: whenever [swap_rows] or [swap_cols]
    succeeds, the same call on the array it leaves gives the first array
    back, on one-dimensional and on two-dimensional arrays. *)
Theorem swap_twice_restores {A : Type} (arr arr' : grid A) (frm to : Z) :
  (swap_rows arr frm to = Ok arr' -> swap_rows arr' frm to = Ok arr) /\
  (swap_cols arr frm to = Ok arr' -> swap_cols arr' frm to = Ok arr).
Proof.
  split; intros H.
  - destruct arr as [items|ncols rows]; simpl in H; bind_ok H;
      inversion H; subst; simpl;
      now rewrite (swap_items_involutive _ _ _ _ E).
  - destruct arr as [items|ncols rows]; simpl in H.
    + bind_ok H. inversion H; subst. simpl.
      now rewrite (swap_items_involutive _ _ _ _ E).
    + bind_ok H. bind_ok H. bind_ok H. inversion H; subst. simpl.
      rewrite E, E0. cbn [bind].
      rewrite (mapM_involutive _ _ _
                 (fun r r' => swap_items_involutive r r' frm to) E1).
      reflexivity.
Qed.

Lemma swap_twice_restores_witness :
  swap_rows (Mat 2 [[3; 4]; [1; 2]; [5; 6]]) 0 1
  = Ok (Mat 2 [[1; 2]; [3; 4]; [5; 6]]) /\
  swap_cols (Mat 2 [[2; 1]; [4; 3]; [6; 5]]) 0 (-1)
  = Ok (Mat 2 [[1; 2]; [3; 4]; [5; 6]]).
Proof.
  split.
  - apply (proj1 (swap_twice_restores
                    (Mat 2 [[1; 2]; [3; 4]; [5; 6]])
                    (Mat 2 [[3; 4]; [1; 2]; [5; 6]]) 0 1)).
    reflexivity.
  - apply (proj2 (swap_twice_restores
                    (Mat 2 [[1; 2]; [3; 4]; [5; 6]])
                    (Mat 2 [[2; 1]; [4; 3]; [6; 5]]) 0 (-1))).
    reflexivity.
Defined.

Lemma check_index_in_range (n : nat) (i : Z) :
  (in_range n i -> check_index n i = Ok tt) /\
  (~ in_range n i -> check_index n i = Raise IndexError).
Proof.
  unfold check_index, in_range.
  destruct (Z.leb_spec (- Z.of_nat n) i); destruct (Z.ltb_spec i (Z.of_nat n));
    simpl; split; intros; try reflexivity; lia.
Qed.

Lemma exchanged_incl {A : Type} (l l' : list A) (p q : nat) :
  exchanged l l' p q -> incl l' l.
Proof.
  intros (Hlen & Hp & Hq & Hrest) a Ha.
  apply In_nth_error in Ha as (j & Hj).
  destruct (Nat.eq_dec j p) as [->|Hjp];
    [rewrite Hp in Hj; eapply nth_error_In; eassumption|].
  destruct (Nat.eq_dec j q) as [->|Hjq];
    [rewrite Hq in Hj; eapply nth_error_In; eassumption|].
  rewrite Hrest in Hj by assumption. eapply nth_error_In; eassumption.
Qed.

(** X15. On a two-dimensional array with [ncols] columns, [swap_rows]
    with both indices within the number of rows exchanges the two rows and
    leaves the others; [swap_cols] with both indices within [ncols]
    exchanges the two entries of every row and leaves the others, and
    raises [IndexError] when an index is outside [ncols], even on an array
    without rows. Either way the array keeps its shape. *)
Theorem swap_matrix_exchanges {A : Type} (ncols : nat) (rows : list (list A))
    (frm to : Z) :
  rectangular ncols rows ->
  (in_range (List.length rows) frm -> in_range (List.length rows) to ->
   exists rows',
     swap_rows (Mat ncols rows) frm to = Ok (Mat ncols rows') /\
     exchanged rows rows' (position (List.length rows) frm)
       (position (List.length rows) to) /\
     rectangular ncols rows') /\
  (in_range ncols frm -> in_range ncols to ->
   exists rows',
     swap_cols (Mat ncols rows) frm to = Ok (Mat ncols rows') /\
     Forall2 (fun row row' =>
                exchanged row row' (position ncols frm) (position ncols to))
       rows rows' /\
     rectangular ncols rows') /\
  (~ (in_range ncols frm /\ in_range ncols to) ->
   swap_cols (Mat ncols rows) frm to = Raise IndexError).
Proof.
  intros Hrect. split; [|split].
  - intros Hf Ht.
    destruct (swap_items_exchanges rows frm to Hf Ht) as (rows' & H & Hex).
    exists rows'. simpl. rewrite H. split; [reflexivity|]. split; [assumption|].
    unfold rectangular in *. apply Forall_forall. intros row Hrow.
    apply (proj1 (Forall_forall _ _) Hrect). eapply exchanged_incl; eassumption.
  - intros Hf Ht. simpl.
    rewrite (proj1 (check_index_in_range ncols to) Ht),
            (proj1 (check_index_in_range ncols frm) Hf). cbn [bind].
    induction Hrect as [|row rows Hrow Hrect IH].
    + exists []. repeat split; constructor.
    + destruct IH as (rows' & Hrows & HF & Hrect').
      rewrite <- Hrow in Hf, Ht.
      destruct (swap_items_exchanges row frm to Hf Ht) as (row' & H & Hex).
      rewrite Hrow in Hex.
      exists (row' :: rows'). simpl. rewrite H. cbn [bind].
      destruct (mapM _ rows) as [rows''|]; [|discriminate].
      inversion Hrows; subst. cbn [bind].
      split; [reflexivity|]. split; [constructor; assumption|].
      constructor; [|assumption]. destruct Hex as (Hlen & _). congruence.
  - intros Hno. simpl.
    destruct (in_range_dec ncols to) as [Ht|Ht].
    + rewrite (proj1 (check_index_in_range ncols to) Ht). cbn [bind].
      rewrite (proj2 (check_index_in_range ncols frm)); [reflexivity|tauto].
    + now rewrite (proj2 (check_index_in_range ncols to) Ht).
Qed.

Lemma swap_matrix_exchanges_witness :
  (exists rows',
     swap_rows (Mat 2 [[1; 2]; [3; 4]; [5; 6]]) 0 (-1) = Ok (Mat 2 rows') /\
     exchanged [[1; 2]; [3; 4]; [5; 6]] rows' (position 3 0) (position 3 (-1)) /\
     rectangular 2 rows') /\
  (exists rows',
     swap_cols (Mat 2 [[1; 2]; [3; 4]; [5; 6]]) 0 1 = Ok (Mat 2 rows') /\
     Forall2 (fun row row' => exchanged row row' (position 2 0) (position 2 1))
       [[1; 2]; [3; 4]; [5; 6]] rows' /\
     rectangular 2 rows') /\
  swap_cols (Mat 2 ([] : list (list Z))) 0 2 = Raise IndexError.
Proof.
  assert (rectangular 2 [[1; 2]; [3; 4]; [5; 6]]) as Hrect
    by (repeat constructor).
  split; [|split].
  - apply (proj1 (swap_matrix_exchanges 2 [[1; 2]; [3; 4]; [5; 6]] 0 (-1) Hrect));
      unfold in_range; simpl; lia.
  - apply (proj1 (proj2 (swap_matrix_exchanges 2 [[1; 2]; [3; 4]; [5; 6]] 0 1
                           Hrect)));
      unfold in_range; simpl; lia.
  - apply (proj2 (proj2 (swap_matrix_exchanges 2 [] 0 2 (Forall_nil _)))).
    unfold in_range. simpl. lia.
Defined.

(** ** find_nearest_idx, find_nearest_indices *)

Lemma Qltb_false (v t : Q) : Py.Qltb v t = false -> (t <= v)%Q.
Proof.
  intros H. apply Qnot_lt_le. intros Hlt. apply Qltb_lt in Hlt. congruence.
Qed.

Lemma argmin_from_spec (l : list Q) :
  forall best_i best i,
    (argmin_from best_i best i l = best_i /\ Forall (fun v => (best <= v)%Q) l) \/
    (exists k v,
       argmin_from best_i best i l = i + Z.of_nat k /\
       nth_error l k = Some v /\ (v < best)%Q /\
       Forall (fun w => (v <= w)%Q) l /\
       forall k' w, (k' < k)%nat -> nth_error l k' = Some w -> (v < w)%Q).
Proof.
  induction l as [|a l IH]; intros best_i best i; [left; split; constructor|].
  simpl. destruct (Py.Qltb a best) eqn:E.
  - apply Qltb_lt in E. right.
    destruct (IH i a (i + 1)) as [[Hr Hall]|(k & v & Hr & Hk & Hv & Hall & Hfirst)].
    + exists O, a. rewrite Hr.
      split; [lia|]. split; [reflexivity|]. split; [assumption|]. split.
      * constructor; [apply Qle_refl|assumption].
      * intros k' w Hk'. lia.
    + exists (S k), v. rewrite Hr.
      split; [lia|]. split; [exact Hk|].
      split; [eapply Qlt_trans; eassumption|]. split.
      * constructor; [now apply Qlt_le_weak|assumption].
      * intros [|k'] w Hk' Hw; simpl in Hw.
        -- now inversion Hw; subst.
        -- apply (Hfirst k'); [lia|assumption].
  - apply Qltb_false in E.
    destruct (IH best_i best (i + 1))
      as [[Hr Hall]|(k & v & Hr & Hk & Hv & Hall & Hfirst)].
    + left. split; [assumption|]. now constructor.
    + right. exists (S k), v. rewrite Hr.
      split; [lia|]. split; [exact Hk|]. split; [assumption|]. split.
      * constructor; [|assumption].
        apply Qlt_le_weak. eapply Qlt_le_trans; eassumption.
      * intros [|k'] w Hk' Hw; simpl in Hw.
        -- inversion Hw; subst. eapply Qlt_le_trans; eassumption.
        -- apply (Hfirst k'); [lia|assumption].
Qed.

Lemma argmin_first_minimum (d : list Q) :
  d <> [] -> exists i, argmin d = Ok i /\ first_minimum d i.
Proof.
  destruct d as [|a0 d]; [congruence|]. intros _. simpl.
  eexists. split; [reflexivity|].
  destruct (argmin_from_spec d 0 a0 1)
    as [[-> Hall]|(k & v & -> & Hk & Hv & Hall & Hfirst)].
  - split; [lia|]. exists a0. split; [reflexivity|].
    intros [|j] w Hw; simpl in Hw.
    + inversion Hw; subst. split; [apply Qle_refl|simpl; lia].
    + split; [|simpl; lia].
      apply (proj1 (Forall_forall _ _) Hall). eapply nth_error_In; eassumption.
  - split; [lia|]. exists v.
    replace (Z.to_nat (1 + Z.of_nat k)) with (S k) by lia.
    split; [exact Hk|].
    intros [|j] w Hw; simpl in Hw.
    + inversion Hw; subst. split; [now apply Qlt_le_weak|auto].
    + split.
      * apply (proj1 (Forall_forall _ _) Hall). eapply nth_error_In; eassumption.
      * intros Hj. apply (Hfirst j); [lia|assumption].
Qed.

Lemma find_nearest_idx_nearest (array : list Q) (val : Q) :
  array <> [] -> exists i, find_nearest_idx array val = Ok i /\ nearest array val i.
Proof.
  intros Hne. unfold find_nearest_idx.
  destruct (argmin_first_minimum (map (fun a => Qabs (a - val)) array))
    as (i & Hi & H0 & v & Hv & Hmin).
  { destruct array; [congruence|discriminate]. }
  exists i. split; [assumption|]. split; [assumption|].
  rewrite nth_error_map in Hv.
  destruct (nth_error array (Z.to_nat i)) as [a|] eqn:Ha; [|discriminate].
  simpl in Hv. inversion Hv; subst v. exists a. split; [reflexivity|].
  intros j b Hb. apply (Hmin j). now rewrite nth_error_map, Hb.
Qed.

(** X16. On a non-empty array [find_nearest_idx] returns the position of
    an item that is as near to [val] as any item, and the first such
    position; on an empty array it raises [ValueError]. *)
Theorem find_nearest_idx_first_nearest (array : list Q) (val : Q) :
  (array <> [] ->
   exists i, find_nearest_idx array val = Ok i /\ nearest array val i) /\
  find_nearest_idx [] val = Raise ValueError.
Proof. split; [apply find_nearest_idx_nearest|reflexivity]. Qed.

Lemma find_nearest_idx_first_nearest_witness :
  exists i, find_nearest_idx [1; 4; 6; 4]%Q 5 = Ok i /\ nearest [1; 4; 6; 4]%Q 5 i.
Proof.
  apply (proj1 (find_nearest_idx_first_nearest [1; 4; 6; 4]%Q 5)).
  discriminate.
Defined.

(** X17. On a non-empty array [find_nearest_indices] returns one position
    per value of [vals], in their order, each the first nearest position
    for its value; on an empty array it raises [ValueError] as soon as
    [vals] holds a value. *)
Theorem find_nearest_indices_pointwise (array vals : list Q) :
  (array <> [] ->
   exists idx,
     find_nearest_indices array vals = Ok idx /\
     Forall2 (nearest array) vals idx) /\
  (vals <> [] -> find_nearest_indices [] vals = Raise ValueError).
Proof.
  split.
  - intros Hne. unfold find_nearest_indices.
    induction vals as [|val vals (idx & Hidx & HF)].
    + exists []. split; [reflexivity|constructor].
    + destruct (find_nearest_idx_nearest array val Hne) as (i & Hi & Hn).
      exists (i :: idx). simpl. rewrite Hi, Hidx. split; [reflexivity|].
      now constructor.
  - destruct vals; [congruence|reflexivity].
Qed.

Lemma find_nearest_indices_pointwise_witness :
  (exists idx,
     find_nearest_indices [1; 4; 6; 4]%Q [5; 0]%Q = Ok idx /\
     Forall2 (nearest [1; 4; 6; 4]%Q) [5; 0]%Q idx) /\
  find_nearest_indices [] [5; 0]%Q = Raise ValueError.
Proof.
  split.
  - apply (proj1 (find_nearest_indices_pointwise [1; 4; 6; 4]%Q [5; 0]%Q)).
    discriminate.
  - apply (proj2 (find_nearest_indices_pointwise [1; 4; 6; 4]%Q [5; 0]%Q)).
    discriminate.
Defined.

(** ** get_sort_idx *)

Lemma first_max_location_spec (tc : list Q) :
  tc <> [] -> exists loc, first_max_location tc = Ok loc /\ first_maximum tc loc.
Proof.
  intros Hne. unfold first_max_location.
  destruct (amax_nonempty tc Hne) as (m & Hm). rewrite Hm.
  apply amax_spec in Hm as (Hin & Hmax).
  set (mask := map (fun v => Qeq_bool v m) tc).
  assert (StronglySorted Z.lt (Py.argwhere mask)) as Hsorted
    by apply argwhere_from_sorted.
  assert (forall i, In i (Py.argwhere mask) <->
            0 <= i /\ exists v, nth_error tc (Z.to_nat i) = Some v /\ (v == m)%Q)
    as Hwhere.
  { intros i. unfold Py.argwhere, Py.enumerate. rewrite argwhere_from_in.
    rewrite Z.sub_0_r. unfold mask. rewrite nth_error_map.
    destruct (nth_error tc (Z.to_nat i)) as [v|]; simpl.
    - split.
      + intros [Hi [= Hv]]. split; [assumption|]. exists v.
        split; [reflexivity|]. now apply Qeq_bool_iff.
      + intros [Hi (v' & [= <-] & Hv)]. split; [assumption|].
        f_equal. now apply Qeq_bool_iff.
    - split; [intros [_ H]; discriminate|intros [_ (v' & H & _)]; discriminate]. }
  destruct (Py.argwhere mask) as [|loc rest] eqn:Hw.
  - exfalso. apply In_nth_error in Hin as (j & Hj).
    apply (proj2 (Hwhere (Z.of_nat j))).
    split; [lia|]. exists m. rewrite Nat2Z.id. split; [assumption|reflexivity].
  - exists loc. split; [reflexivity|].
    destruct (proj1 (Hwhere loc) (or_introl eq_refl)) as (H0 & v & Hv & Hvm).
    split; [assumption|]. exists v. split; [assumption|].
    intros j w Hj.
    assert (w <= m)%Q as Hwm by (apply Hmax; eapply nth_error_In; eassumption).
    split; [now rewrite Hvm|].
    intros Hlt. rewrite Hvm.
    apply Qle_lteq in Hwm as [Hlt'|Heq]; [assumption|]. exfalso.
    assert (In (Z.of_nat j) (loc :: rest)) as Hjin.
    { apply Hwhere. split; [lia|]. exists w. now rewrite Nat2Z.id. }
    apply StronglySorted_inv in Hsorted as [_ Hall].
    destruct Hjin as [Hj0|Hj0]; [lia|].
    pose proof (proj1 (Forall_forall _ _) Hall _ Hj0). lia.
Qed.

Lemma mapM_first_max_locations (tuning_curves : list (list Q)) :
  Forall (fun tc => tc <> []) tuning_curves ->
  exists locations,
    mapM first_max_location tuning_curves = Ok locations /\
    Forall2 first_maximum tuning_curves locations.
Proof.
  induction 1 as [|tc tcs Htc _ (locations & Hl & HF)].
  - exists []. split; [reflexivity|constructor].
  - destruct (first_max_location_spec tc Htc) as (loc & Hloc & Hmax).
    exists (loc :: locations). simpl. rewrite Hloc, Hl.
    split; [reflexivity|now constructor].
Qed.

Lemma mapM_first_max_empty (tuning_curves : list (list Q)) :
  In [] tuning_curves ->
  mapM first_max_location tuning_curves = Raise ValueError.
Proof.
  induction tuning_curves as [|tc tcs IH]; intros Hin; [destruct Hin|].
  simpl. destruct tc as [|v tc].
  - reflexivity.
  - destruct Hin as [Hin|Hin]; [discriminate|].
    destruct (first_max_location_spec (v :: tc)) as (loc & -> & _);
      [discriminate|].
    cbn [bind]. now rewrite IH.
Qed.

(** X18. When no tuning curve is empty, [get_sort_idx] returns a
    rearrangement of the neuron numbers [0 .. n-1] in the order of the
    position of each neuron's first maximum, neurons with the same position
    staying in their order; when a tuning curve is empty it raises
    [ValueError]. *)
Theorem get_sort_idx_orders_by_peak (tuning_curves : list (list Q)) :
  (Forall (fun tc => tc <> []) tuning_curves ->
   exists locations sorted_idx,
     get_sort_idx tuning_curves = Ok sorted_idx /\
     Forall2 first_maximum tuning_curves locations /\
     Permutation sorted_idx
       (map Z.of_nat (List.seq 0 (List.length tuning_curves))) /\
     StronglySorted (held_before locations) sorted_idx) /\
  (In [] tuning_curves -> get_sort_idx tuning_curves = Raise ValueError).
Proof.
  split.
  - intros Hne.
    destruct (mapM_first_max_locations tuning_curves Hne) as (locations & Hl & HF).
    exists locations. eexists. unfold get_sort_idx. rewrite Hl. cbn [bind].
    split; [reflexivity|]. split; [assumption|].
    destruct (sorted_positions_spec locations) as [Hperm Hsorted].
    rewrite (Forall2_length HF). split; assumption.
  - intros Hin. unfold get_sort_idx. now rewrite mapM_first_max_empty.
Qed.

Lemma get_sort_idx_orders_by_peak_witness :
  (exists locations sorted_idx,
     get_sort_idx [[0; 1; 5]; [7; 1; 7]; [0; 3; 3]]%Q = Ok sorted_idx /\
     Forall2 first_maximum [[0; 1; 5]; [7; 1; 7]; [0; 3; 3]]%Q locations /\
     Permutation sorted_idx (map Z.of_nat (List.seq 0 3)) /\
     StronglySorted (held_before locations) sorted_idx) /\
  get_sort_idx [[0; 1; 5]; []]%Q = Raise ValueError.
Proof.
  split.
  - apply (proj1 (get_sort_idx_orders_by_peak
                    [[0; 1; 5]; [7; 1; 7]; [0; 3; 3]]%Q)).
    repeat constructor; discriminate.
  - apply (proj2 (get_sort_idx_orders_by_peak [[0; 1; 5]; []]%Q)).
    right. left. reflexivity.
Defined.

(** ** cartesian *)

Lemma length_tile {A : Type} (a : list A) (reps : nat) :
  List.length (tile a reps) = (List.length a * reps)%nat.
Proof.
  induction reps as [|r IH]; simpl; [lia|]. rewrite length_app, IH. lia.
Qed.

Lemma length_repeat_each {A : Type} (a : list A) (n : nat) :
  List.length (repeat_each a n) = (List.length a * n)%nat.
Proof.
  unfold repeat_each. induction a as [|v a IH]; simpl; [reflexivity|].
  rewrite length_app, repeat_length, IH. reflexivity.
Qed.

Lemma nth_error_combine_both {A B : Type} (l : list A) (l' : list B) k a b :
  nth_error l k = Some a -> nth_error l' k = Some b ->
  nth_error (combine l l') k = Some (a, b).
Proof.
  revert l' k. induction l as [|x l IH]; intros [|y l'] [|k]; simpl;
    try discriminate.
  - now intros [= ->] [= ->].
  - apply IH.
Qed.

Lemma nth_error_tile {A : Type} (a : list A) (reps k : nat) :
  (k < List.length a * reps)%nat ->
  nth_error (tile a reps) k = nth_error a (k mod List.length a).
Proof.
  revert k. induction reps as [|r IH]; intros k Hk; [lia|]. simpl.
  destruct (Nat.ltb_spec k (List.length a)) as [Hlt|Hge].
  - rewrite nth_error_app1 by assumption. now rewrite Nat.mod_small.
  - rewrite nth_error_app2 by assumption. rewrite IH by lia.
    f_equal.
    replace k with ((k - List.length a) + 1 * List.length a)%nat at 2 by lia.
    now rewrite Nat.Div0.mod_add.
Qed.

Lemma nth_error_repeat_each {A : Type} (a : list A) (n k : nat) :
  (0 < n)%nat ->
  nth_error (repeat_each a n) k = nth_error a (k / n).
Proof.
  intros Hn. unfold repeat_each. revert k.
  induction a as [|v a IH]; intros k; simpl.
  - now rewrite !nth_error_nil.
  - destruct (Nat.ltb_spec k n) as [Hlt|Hge].
    + rewrite nth_error_app1 by (now rewrite repeat_length).
      rewrite Nat.div_small by assumption. simpl.
      now rewrite nth_error_repeat.
    + rewrite nth_error_app2 by (now rewrite repeat_length).
      rewrite repeat_length, IH.
      replace k with ((k - n) + 1 * n)%nat at 2 by lia.
      rewrite Nat.div_add by lia. now rewrite Nat.add_1_r.
Qed.

(** X19. [cartesian(xcenters, ycenters)] has one row per pair of
    positions: row [k] pairs [xcenters[k mod nx]] with [ycenters[k / nx]],
    so the rows are exactly the combinations of an element of [xcenters]
    with an element of [ycenters]. *)
Theorem cartesian_rows {A : Type} (xcenters ycenters : list A) :
  List.length (cartesian xcenters ycenters) =
    (List.length xcenters * List.length ycenters)%nat /\
  (forall k, (k < List.length xcenters * List.length ycenters)%nat ->
     exists a b,
       nth_error xcenters (k mod List.length xcenters) = Some a /\
       nth_error ycenters (k / List.length xcenters) = Some b /\
       nth_error (cartesian xcenters ycenters) k = Some (a, b)) /\
  (forall a b,
     In (a, b) (cartesian xcenters ycenters) <->
     In a xcenters /\ In b ycenters).
Proof.
  set (nx := List.length xcenters). set (ny := List.length ycenters).
  assert (List.length (cartesian xcenters ycenters) = (nx * ny)%nat) as Hlen.
  { unfold cartesian. rewrite length_combine, length_tile, length_repeat_each.
    fold nx ny. lia. }
  assert (forall k, (k < nx * ny)%nat ->
     exists a b,
       nth_error xcenters (k mod nx) = Some a /\
       nth_error ycenters (k / nx) = Some b /\
       nth_error (cartesian xcenters ycenters) k = Some (a, b)) as Hrow.
  { intros k Hk.
    assert (0 < nx)%nat as Hnx by lia.
    assert (k mod nx < nx)%nat as Hmod by (apply Nat.mod_upper_bound; lia).
    assert (k / nx < ny)%nat as Hdiv by (apply Nat.Div0.div_lt_upper_bound; lia).
    destruct (nth_error xcenters (k mod nx)) as [a|] eqn:Ha;
      [|apply nth_error_None in Ha; fold nx in Ha; lia].
    destruct (nth_error ycenters (k / nx)) as [b|] eqn:Hb;
      [|apply nth_error_None in Hb; fold ny in Hb; lia].
    exists a, b. split; [reflexivity|]. split; [reflexivity|].
    unfold cartesian. fold nx ny.
    apply nth_error_combine_both.
    - rewrite nth_error_tile by (fold nx; lia). exact Ha.
    - rewrite nth_error_repeat_each by assumption. exact Hb. }
  split; [exact Hlen|]. split; [exact Hrow|].
  intros a b. split.
  - intros Hin. apply In_nth_error in Hin as (k & Hk).
    assert (k < nx * ny)%nat as Hlt.
    { rewrite <- Hlen. apply nth_error_Some. congruence. }
    destruct (Hrow k Hlt) as (a' & b' & Ha & Hb & Hk').
    rewrite Hk in Hk'. injection Hk' as <- <-.
    split; eapply nth_error_In; eassumption.
  - intros [Ha Hb].
    apply In_nth_error in Ha as (i & Hi), Hb as (j & Hj).
    assert (i < nx)%nat as Hi' by (apply nth_error_Some; congruence).
    assert (j < ny)%nat as Hj' by (apply nth_error_Some; congruence).
    assert (j * nx + i < nx * ny)%nat as Hlt by nia.
    destruct (Hrow (j * nx + i)%nat Hlt) as (a' & b' & Ha & Hb & Hk).
    rewrite (Nat.add_comm (j * nx) i) in Ha, Hb.
    rewrite Nat.Div0.mod_add, Nat.mod_small in Ha by assumption.
    rewrite Nat.div_add, Nat.div_small, Nat.add_0_l in Hb by lia.
    rewrite Hi in Ha. rewrite Hj in Hb.
    injection Ha as <-. injection Hb as <-.
    eapply nth_error_In; eassumption.
Qed.

(** ** PrettyDuration.to_dhms *)

Lemma py_round_unit (x : Q) :
  (0 <= x)%Q -> (x < 1)%Q -> 0 <= py_round (x * 1000) <= 1000.
Proof.
  intros H0 H1.
  assert (0 <= x * 1000)%Q as Hlo by (apply Qmult_le_0_compat; [assumption|discriminate]).
  assert (x * 1000 < 1000)%Q as Hhi.
  { setoid_replace (1000 : Q) with (1 * 1000)%Q at 2 by reflexivity.
    apply Qmult_lt_compat_r; [reflexivity|assumption]. }
  assert (0 <= Qfloor (x * 1000) < 1000) as Hfloor.
  { split.
    - change 0 with (Qfloor 0). now apply Qfloor_resp_le.
    - apply Z.lt_nge. intros Hge.
      apply (Qlt_not_le _ _ Hhi).
      apply Qle_trans with (inject_Z (Qfloor (x * 1000))); [|apply Qfloor_le].
      change (1000 : Q) with (inject_Z 1000). now rewrite <- Zle_Qle. }
  unfold py_round.
  destruct (Py.Qltb _ _); [lia|].
  destruct (Py.Qltb _ _); [lia|].
  destruct (Z.even _); lia.
Qed.

(** X20. [to_dhms(seconds)] splits the magnitude of [seconds]: the flag
    [pos] tells whether [seconds] is non-negative, the hour, minute and
    second fields are in their clock ranges, the day, hour, minute and
    second fields recompose to the whole seconds of the magnitude, and the
    millisecond field is between 0 and 1000, both included. *)
Theorem to_dhms_fields (seconds : Q) :
  (pos (to_dhms seconds) = true <-> (0 <= seconds)%Q) /\
  0 <= dd (to_dhms seconds) /\
  0 <= hh (to_dhms seconds) < 24 /\
  0 <= mm (to_dhms seconds) < 60 /\
  0 <= ss (to_dhms seconds) < 60 /\
  0 <= ms (to_dhms seconds) <= 1000 /\
  ((dd (to_dhms seconds) * 24 + hh (to_dhms seconds)) * 60
     + mm (to_dhms seconds)) * 60 + ss (to_dhms seconds)
  = Qfloor (Qabs seconds).
Proof.
  unfold to_dhms, divmod. cbn [pos dd hh mm ss ms].
  set (a := if negb (Py.Qgeb seconds 0) then (- seconds)%Q else seconds).
  assert ((Py.Qgeb seconds 0 = true <-> (0 <= seconds)%Q)) as Hpos
    by (unfold Py.Qgeb; apply Qle_bool_iff).
  assert (a == Qabs seconds)%Q as Ha.
  { unfold a. destruct (Py.Qgeb seconds 0) eqn:E; simpl.
    - symmetry. apply Qabs_pos. now apply Hpos.
    - symmetry. apply Qabs_neg. apply Qlt_le_weak, Qnot_le_lt.
      intros H. apply Hpos in H. congruence. }
  assert (0 <= a)%Q as Ha0 by (rewrite Ha; apply Qabs_nonneg).
  assert (0 <= Qfloor a) as Hn.
  { change 0 with (Qfloor 0). now apply Qfloor_resp_le. }
  assert (Qfloor a = Qfloor (Qabs seconds)) as Hfl by now rewrite Ha.
  split; [exact Hpos|].
  assert (0 <= py_round ((a - inject_Z (Qfloor a)) * 1000) <= 1000) as Hms.
  { apply py_round_unit.
    - pose proof (Qfloor_le a) as H. apply (Qplus_le_l _ _ (inject_Z (Qfloor a))).
      ring_simplify. exact H.
    - pose proof (Qlt_floor a) as H.
      apply (Qplus_lt_l _ _ (inject_Z (Qfloor a))). ring_simplify.
      rewrite inject_Z_plus in H. exact H. }
  rewrite <- Hfl. set (n := Qfloor a) in *.
  repeat split; try (apply Hms); Z.div_mod_to_equations; lia.
Qed.

(** ** get_run_epochs, get_inactive_epochs, get_mua_events *)

Lemma index_sample_at (t : list Q) (i : Z) :
  0 <= i < Py.len t -> exists a, Py.index t i = Ok a /\ sample_at t i = Some a.
Proof.
  intros Hi. unfold Py.len in Hi.
  destruct (index_in_range_nth t i) as (a & Ha & Hn); [unfold in_range; lia|].
  exists a. split; [assumption|]. unfold sample_at, position in *.
  destruct (Z.ltb_spec i 0); [lia|assumption].
Qed.

(** Looking up windows that lie inside the time buffer gives one epoch per
    window, stamped with the times of its two ends. *)
Lemma take_pairs_stamped (P : run -> Prop) (t : list Q) (windows : list run) :
  Forall P windows ->
  (forall w, P w -> 0 <= fst w < Py.len t /\ 0 <= snd w < Py.len t) ->
  exists epochs,
    take_pairs t windows = Ok epochs /\
    List.length epochs = List.length windows /\
    Forall (fun ep => exists w, P w /\ stamped t w ep) epochs.
Proof.
  intros Hall Hin. unfold take_pairs.
  induction Hall as [|w ws Hw _ (epochs & IH & Hlen & Hst)].
  - exists []. repeat split; constructor.
  - destruct (Hin w Hw) as [Hs He].
    destruct (index_sample_at t (fst w) Hs) as (a & Hia & Ha).
    destruct (index_sample_at t (snd w) He) as (b & Hib & Hb).
    exists ((a, b) :: epochs). cbn [mapM]. rewrite Hia, Hib. cbn [bind].
    rewrite IH. cbn [bind].
    split; [reflexivity|]. split; [simpl; congruence|].
    constructor; [|assumption]. exists w. now repeat split.
Qed.

Lemma crossing_run_inside mode threshold (x : list Q) (w : run) :
  crossing_run mode threshold x w ->
  0 <= fst w < Py.len x /\ 0 <= snd w < Py.len x.
Proof. intros (H & H' & _). lia. Qed.

Lemma speed_epochs (speed : AnalogSignalArray) (v1 v2 : Q) (mode : string) :
  ndim (squeeze (ydata speed)) = 1%nat ->
  ordered mode v1 v2 ->
  List.length (tdata speed) = List.length (flat (ydata speed)) ->
  exists epochs,
    (do (bounds, _, _) <-
       get_events_boundaries (ydata speed) v1 v2 None None None None mode;
     do bounds <- take_pairs (tdata speed) bounds;
     Ok (mk_EpochArray bounds 1)) = Ok (mk_EpochArray epochs 1) /\
    Forall (fun ep => exists w,
              crossing_run mode v2 (flat (ydata speed)) w /\
              stamped (tdata speed) w ep) epochs.
Proof.
  intros Hdim Hord Hlen.
  destruct (get_events_boundaries_returns (ydata speed) v1 v2
              None None None None mode Hdim Hord) as ([[b m] e] & Hc).
  { right. auto. }
  rewrite Hc. cbn [bind].
  destruct (boundaries_rows_are_runs _ _ _ _ _ _ _ _ _ _ _ Hc) as (Hb & _ & _).
  destruct (take_pairs_stamped _ (tdata speed) b Hb) as (epochs & -> & _ & Hst).
  { intros w Hw. apply crossing_run_inside in Hw.
    unfold Py.len in *. rewrite Hlen. exact Hw. }
  exists epochs. split; [reflexivity|assumption].
Qed.

(** X21. On a one-dimensional speed signal with as many time stamps as
    samples and [v2 <= v1], [get_run_epochs] returns, and every epoch it
    returns runs from the time stamp of the first sample to the time stamp
    of the last sample of a maximal stretch of samples strictly above
    [v2]. *)
Theorem get_run_epochs_stamps_runs (speed : AnalogSignalArray) (v1 v2 : Q) :
  ndim (squeeze (ydata speed)) = 1%nat ->
  (v2 <= v1)%Q ->
  List.length (tdata speed) = List.length (flat (ydata speed)) ->
  exists epochs,
    get_run_epochs speed v1 v2 = Ok (mk_EpochArray epochs 1) /\
    Forall (fun ep => exists w,
              crossing_run "above" v2 (flat (ydata speed)) w /\
              stamped (tdata speed) w ep) epochs.
Proof.
  intros Hdim Hord Hlen. apply speed_epochs; try assumption.
  left. now split.
Qed.

Lemma get_run_epochs_stamps_runs_witness :
  exists epochs,
    get_run_epochs
      (mk_AnalogSignalArray (mk_ndarray [1%nat; 6%nat] [0; 9; 12; 9; 0; 9]%Q)
         [10; 11; 12; 13; 14; 15]%Q [10; 11; 12; 13; 14; 15]%Q None 0 0)
      10 8 = Ok (mk_EpochArray epochs 1) /\
    Forall (fun ep => exists w,
              crossing_run "above" 8 [0; 9; 12; 9; 0; 9]%Q w /\
              stamped [10; 11; 12; 13; 14; 15]%Q w ep) epochs.
Proof.
  apply (get_run_epochs_stamps_runs
           (mk_AnalogSignalArray
              (mk_ndarray [1%nat; 6%nat] [0; 9; 12; 9; 0; 9]%Q)
              [10; 11; 12; 13; 14; 15]%Q [10; 11; 12; 13; 14; 15]%Q None 0 0)
           10 8).
  - reflexivity.
  - discriminate.
  - reflexivity.
Defined.

(** X22. On a one-dimensional speed signal with as many time stamps as
    samples and [v1 <= v2], [get_inactive_epochs] returns, and every epoch
    it returns runs from the time stamp of the first sample to the time
    stamp of the last sample of a maximal stretch of samples strictly below
    [v2]. *)
Theorem get_inactive_epochs_stamps_runs
    (speed : AnalogSignalArray) (v1 v2 : Q) :
  ndim (squeeze (ydata speed)) = 1%nat ->
  (v1 <= v2)%Q ->
  List.length (tdata speed) = List.length (flat (ydata speed)) ->
  exists epochs,
    get_inactive_epochs speed v1 v2 = Ok (mk_EpochArray epochs 1) /\
    Forall (fun ep => exists w,
              crossing_run "below" v2 (flat (ydata speed)) w /\
              stamped (tdata speed) w ep) epochs.
Proof.
  intros Hdim Hord Hlen. apply speed_epochs; try assumption.
  right. now split.
Qed.

Lemma get_inactive_epochs_stamps_runs_witness :
  exists epochs,
    get_inactive_epochs
      (mk_AnalogSignalArray (mk_ndarray [6%nat] [9; 6; 2; 6; 9; 6]%Q)
         [10; 11; 12; 13; 14; 15]%Q [10; 11; 12; 13; 14; 15]%Q None 0 0)
      5 7 = Ok (mk_EpochArray epochs 1) /\
    Forall (fun ep => exists w,
              crossing_run "below" 7 [9; 6; 2; 6; 9; 6]%Q w /\
              stamped [10; 11; 12; 13; 14; 15]%Q w ep) epochs.
Proof.
  apply (get_inactive_epochs_stamps_runs
           (mk_AnalogSignalArray (mk_ndarray [6%nat] [9; 6; 2; 6; 9; 6]%Q)
              [10; 11; 12; 13; 14; 15]%Q [10; 11; 12; 13; 14; 15]%Q None 0 0)
           5 7).
  - reflexivity.
  - discriminate.
  - reflexivity.
Defined.

(** X23. [get_mua_events] raises [ValueError] when no sampling rate is
    given or held by [mua]. With a rate [rate] other than zero, a
    one-dimensional signal with as many time stamps as samples, and a
    primary threshold not below the mean of [mua], it either raises
    [ValueError] (no event) or returns at least one epoch, and every epoch
    runs from the time stamp of the first sample to the time stamp of the
    last sample of a maximal stretch of samples strictly above the mean of
    [mua], lasting between [minLength] and [maxLength] at [1/rate] per
    sample: the windows are cut at the mean whatever [SecondaryThreshold]
    is passed. *)
Theorem get_mua_events_windows (mua : AnalogSignalArray)
    (fs_arg minLength maxLength PrimaryThreshold minThresholdLength
       SecondaryThreshold : option Q) (rate : Q) :
  (fs_arg = None -> fs mua = None ->
   get_mua_events mua fs_arg minLength maxLength PrimaryThreshold
     minThresholdLength SecondaryThreshold = Raise ValueError) /\
  (ndim (squeeze (ydata mua)) = 1%nat ->
   match fs_arg with None => fs mua | Some f => Some f end = Some rate ->
   ~ (rate == 0)%Q ->
   (mean mua <= or_default PrimaryThreshold (mean mua + 3 * std mua))%Q ->
   List.length (time mua) = List.length (flat (ydata mua)) ->
   get_mua_events mua fs_arg minLength maxLength PrimaryThreshold
     minThresholdLength SecondaryThreshold = Raise ValueError \/
   exists epochs,
     epochs <> [] /\
     get_mua_events mua fs_arg minLength maxLength PrimaryThreshold
       minThresholdLength SecondaryThreshold = Ok (mk_EpochArray epochs 1) /\
     Forall (fun ep => exists w,
               (crossing_run "above" (mean mua) (flat (ydata mua)) w /\
                (or_default minLength (50 # 1000) <= duration (1 / rate) w)%Q /\
                (duration (1 / rate) w <= or_default maxLength (750 # 1000))%Q) /\
               stamped (time mua) w ep) epochs).
Proof.
  split.
  - intros -> Hfs. unfold get_mua_events. now rewrite Hfs.
  - intros Hdim Hrate _ Hord Hlen. unfold get_mua_events.
    rewrite Hrate. cbv zeta.
    destruct (get_events_boundaries_returns (ydata mua)
                (or_default PrimaryThreshold (mean mua + 3 * std mua)%Q)
                (mean mua)
                (Some (or_default minThresholdLength 0%Q))
                (Some (or_default minLength (50 # 1000)))
                (Some (or_default maxLength (750 # 1000)))
                (Some (1 / rate)%Q) "above" Hdim)
      as ([[b m] e] & Hc).
    { left. now split. }
    { left. discriminate. }
    rewrite Hc. cbn [bind].
    destruct (Z.eqb_spec (Py.len b) 0) as [|Hne]; [now left|]. right.
    destruct (boundaries_rows_are_runs _ _ _ _ _ _ _ _ _ _ _ Hc) as (Hb & _ & _).
    destruct (returned_durations_within_limits _ _ _ _ _ _ _ _ _ _ _ Hc)
      as (_ & Hmin & Hmax).
    specialize (Hmin _ eq_refl). specialize (Hmax _ eq_refl).
    pose proof (Forall_and Hb (Forall_and Hmin Hmax)) as Hall.
    destruct (take_pairs_stamped _ (time mua) b Hall)
      as (epochs & -> & Hlen' & Hst).
    { intros w (Hw & _). apply crossing_run_inside in Hw.
      unfold Py.len in *. rewrite Hlen. exact Hw. }
    exists epochs. split; [|split; [reflexivity|exact Hst]].
    intros ->. apply Hne. unfold Py.len. now rewrite <- Hlen'.
Qed.

Lemma get_mua_events_windows_witness :
  get_mua_events
    (mk_AnalogSignalArray (mk_ndarray [4%nat] [0; 4; 4; 0]%Q)
       [0; 1 # 10; 2 # 10; 3 # 10]%Q [0; 1 # 10; 2 # 10; 3 # 10]%Q None 2 2)
    None None None None None None = Raise ValueError /\
  (get_mua_events
     (mk_AnalogSignalArray (mk_ndarray [4%nat] [0; 4; 4; 0]%Q)
        [0; 1 # 10; 2 # 10; 3 # 10]%Q [0; 1 # 10; 2 # 10; 3 # 10]%Q (Some 10%Q) 2 2)
     None None None (Some 3%Q) None (Some 100%Q) = Raise ValueError \/
   exists epochs,
     epochs <> [] /\
     get_mua_events
       (mk_AnalogSignalArray (mk_ndarray [4%nat] [0; 4; 4; 0]%Q)
          [0; 1 # 10; 2 # 10; 3 # 10]%Q [0; 1 # 10; 2 # 10; 3 # 10]%Q (Some 10%Q) 2 2)
       None None None (Some 3%Q) None (Some 100%Q)
     = Ok (mk_EpochArray epochs 1) /\
     Forall (fun ep => exists w,
               (crossing_run "above" 2 [0; 4; 4; 0]%Q w /\
                (50 # 1000 <= duration (1 / 10) w)%Q /\
                (duration (1 / 10) w <= 750 # 1000)%Q) /\
               stamped [0; 1 # 10; 2 # 10; 3 # 10]%Q w ep) epochs).
Proof.
  split.
  - apply (proj1 (get_mua_events_windows
                    (mk_AnalogSignalArray (mk_ndarray [4%nat] [0; 4; 4; 0]%Q)
                       [0; 1 # 10; 2 # 10; 3 # 10]%Q [0; 1 # 10; 2 # 10; 3 # 10]%Q None 2 2)
                    None None None None None None 0)); reflexivity.
  - apply (proj2 (get_mua_events_windows
                    (mk_AnalogSignalArray (mk_ndarray [4%nat] [0; 4; 4; 0]%Q)
                       [0; 1 # 10; 2 # 10; 3 # 10]%Q [0; 1 # 10; 2 # 10; 3 # 10]%Q (Some 10%Q) 2 2)
                    None None None (Some 3%Q) None (Some 100%Q) 10)).
    + reflexivity.
    + reflexivity.
    + unfold Qeq. simpl. discriminate.
    + unfold Qle. simpl. lia.
    + reflexivity.
Defined.
